(** * Remote-control event translation (gst-plugins-rs: [remotecontrol] element
    and [webrtcsink::remotecontrol]).

    Shallow embedding of
    - [src/net/remotecontrol/src/remotecontrol/imp.rs]  (filter shape:
      [RemoteControl::src_event], [sink_event], [sink_chain], [enigo]);
    - [src/net/webrtc/src/webrtcsink/remotecontrol.rs] (standalone shape:
      [handle_remotecontrol_event], [enigo]).

    Effects are threaded through a small state/panic/log monad [M] over a
    [World]: the process-wide [GLOBAL_ENIGO]/[INIT] pair, the trace of calls
    issued to the OS input backend, the events pushed on each pad and the
    element's "panicked" flag.  A Rust panic ([expect]) is the [Panic]
    outcome.  The results of the backend and of the peer pads are external and
    are taken from an environment [env]. *)

From Stdlib Require Import ZArith List String Ascii Bool Lia QArith.
From Stdlib Require Import PrimFloat SpecFloat FloatOps.
Import ListNotations.

Local Set Warnings "-inexact-float".
Open Scope string_scope.
Open Scope list_scope.
Open Scope Z_scope.

(** ** Rust strings

    A Rust [String] is valid UTF-8, i.e. a sequence of Unicode scalar
    values; [chars()] enumerates them.  String literals of the source are all
    ASCII, [lit] turns them into scalar sequences. *)

Definition rchar := Z.
Definition rstring := list rchar.

Definition lit (s : string) : rstring :=
  map (fun a => Z.of_N (N_of_ascii a)) (list_ascii_of_string s).

Fixpoint rstring_eqb (a b : rstring) : bool :=
  match a, b with
  | [], [] => true
  | x :: a', y :: b' => Z.eqb x y && rstring_eqb a' b'
  | _, _ => false
  end.

(** [s == "literal"] as in [match event_name.as_str() { "mouse-move" => ..}] *)
Definition is_lit (s : rstring) (l : string) : bool := rstring_eqb s (lit l).

(** ** f64 and the [as i32] cast

    An [f64] is a primitive binary64 [float]; [Prim2SF] exposes it as a
    [spec_float] (sign, mantissa, exponent).  Rust's [f as i32] truncates
    toward zero and saturates: NaN gives 0, values beyond the range give
    [i32::MIN] / [i32::MAX]. *)

Definition i32_min : Z := -2147483648.
Definition i32_max : Z := 2147483647.

Definition sat_i32 (z : Z) : Z := Z.max i32_min (Z.min i32_max z).

(** [f as i32] on the exact value: [Z.shiftl m e] with a negative [e] is
    the floor division of the magnitude by [2^-e], i.e. truncation of the
    magnitude; the sign is applied afterwards. *)
Definition sf_as_i32 (f : spec_float) : Z :=
  match f with
  | S754_zero _ => 0
  | S754_nan => 0
  | S754_infinity s => if s then i32_min else i32_max
  | S754_finite s m e =>
      let t := Z.shiftl (Zpos m) e in
      sat_i32 (if s then - t else t)
  end.

(** [f64::trunc]: the exact value rounded toward zero, sign kept.  The
    result is kept as a [spec_float] carrying that exact value (integer
    mantissa, exponent 0), which is all [as i32] looks at. *)
Definition sf_trunc (f : spec_float) : spec_float :=
  match f with
  | S754_finite s m e =>
      if Z.leb 0 e then f
      else match Z.shiftl (Zpos m) e with
           | Zpos q => S754_finite s q 0
           | _ => S754_zero s
           end
  | _ => f
  end.

(** [x as i32] *)
Definition f64_as_i32 (x : float) : Z := sf_as_i32 (Prim2SF x).

(** [x.trunc() as i32] *)
Definition f64_trunc_as_i32 (x : float) : Z := sf_as_i32 (sf_trunc (Prim2SF x)).

(** ** enigo's types (the constructors the code uses) *)

Inductive Direction := Press | Release | Click.
Inductive Button := Left | Middle | Right.
Inductive Axis := Horizontal | Vertical.
Inductive Coordinate := Abs | Rel.

Inductive Key :=
| Backspace | Delete | Tab | Return
| Shift | LShift | RShift | Control | LControl | RControl
| Alt | Meta | CapsLock | Escape | Space
| PageUp | PageDown | End | Home
| LeftArrow | UpArrow | RightArrow | DownArrow
| F1 | F2 | F3 | F4 | F5 | F6 | F7 | F8 | F9 | F10
| F11 | F12 | F13 | F14 | F15 | F16 | F17 | F18 | F19 | F20
| Unicode (c : rchar).

(** One call to the OS input backend through an [Enigo] instance. *)
Inductive Call :=
| CMove (x y : Z) (c : Coordinate)        (* enigo.move_mouse(x, y, c) *)
| CButton (b : Button) (d : Direction)    (* enigo.button(b, d) *)
| CScroll (length : Z) (a : Axis)         (* enigo.scroll(length, a) *)
| CKey (k : Key) (d : Direction).         (* enigo.key(k, d) *)

(** ** GStreamer events

    A navigation event carries a [GstStructure]: named fields holding typed
    values.  [structure.get::<T>(name)] fails when the field is absent or
    holds another type. *)

Inductive GValue :=
| VString (s : rstring)
| VF64 (x : float)
| VI32 (n : Z)
| VOther.

Definition Structure := list (string * GValue).

Fixpoint field (st : Structure) (name : string) : option GValue :=
  match st with
  | [] => None
  | (n, v) :: st' => if String.eqb n name then Some v else field st' name
  end.

Definition get_str (st : Structure) (name : string) : option rstring :=
  match field st name with Some (VString s) => Some s | _ => None end.

Definition get_f64 (st : Structure) (name : string) : option float :=
  match field st name with Some (VF64 x) => Some x | _ => None end.

Definition get_i32 (st : Structure) (name : string) : option Z :=
  match field st name with Some (VI32 n) => Some n | _ => None end.

(** [gst::EventView::Navigation] (whose [structure()] is always present) or
    any other event. *)
Inductive Event :=
| Navigation (st : Structure)
| OtherEvent (id : nat).

(** What travels downstream on the src pad. *)
Inductive Item :=
| IEvent (e : Event)
| IBuffer (id : nat).

Inductive Flow := FlowOk | FlowError.

(** ** Logging *)

Inductive Level := LError | LWarning | LInfo | LDebug | LTrace.

Record Log := mkLog { log_level : Level; log_msg : string }.

(** ** World *)

(** Each crate has its own [static INIT: Once] and [static mut GLOBAL_ENIGO]:
    the filter in [remotecontrol/imp.rs], the handler in
    [webrtcsink/remotecontrol.rs]. *)
Inductive Crate := RemoteControlCrate | WebrtcCrate.

(** [INIT] together with [GLOBAL_ENIGO]: not run yet, poisoned by a panic
    inside [call_once], or holding the instance (named by its construction
    number). *)
Inductive OnceState :=
| Uninit
| Poisoned
| Ready (id : nat).

Record World := mkWorld {
  w_rc_enigo : OnceState;    (* INIT / GLOBAL_ENIGO of remotecontrol/imp.rs *)
  w_rc_inits : nat;          (* Enigo instances it constructed *)
  w_ws_enigo : OnceState;    (* INIT / GLOBAL_ENIGO of webrtcsink/remotecontrol.rs *)
  w_ws_inits : nat;          (* Enigo instances it constructed *)
  w_calls : list Call;       (* calls issued to the OS input backend *)
  w_upstream : list Event;   (* events pushed upstream by the sink pad *)
  w_downstream : list Item;  (* events and buffers pushed by the src pad *)
  w_panicked : bool          (* the element's panicked flag *)
}.

Definition once_of (c : Crate) (w : World) : OnceState :=
  match c with RemoteControlCrate => w_rc_enigo w | WebrtcCrate => w_ws_enigo w end.
Definition inits_of (c : Crate) (w : World) : nat :=
  match c with RemoteControlCrate => w_rc_inits w | WebrtcCrate => w_ws_inits w end.

Definition set_once (c : Crate) (o : OnceState) (w : World) : World :=
  match c with
  | RemoteControlCrate =>
      mkWorld o (w_rc_inits w) (w_ws_enigo w) (w_ws_inits w)
              (w_calls w) (w_upstream w) (w_downstream w) (w_panicked w)
  | WebrtcCrate =>
      mkWorld (w_rc_enigo w) (w_rc_inits w) o (w_ws_inits w)
              (w_calls w) (w_upstream w) (w_downstream w) (w_panicked w)
  end.
Definition bump_inits (c : Crate) (w : World) : World :=
  match c with
  | RemoteControlCrate =>
      mkWorld (w_rc_enigo w) (S (w_rc_inits w)) (w_ws_enigo w) (w_ws_inits w)
              (w_calls w) (w_upstream w) (w_downstream w) (w_panicked w)
  | WebrtcCrate =>
      mkWorld (w_rc_enigo w) (w_rc_inits w) (w_ws_enigo w) (S (w_ws_inits w))
              (w_calls w) (w_upstream w) (w_downstream w) (w_panicked w)
  end.
Definition add_call (c : Call) (w : World) : World :=
  mkWorld (w_rc_enigo w) (w_rc_inits w) (w_ws_enigo w) (w_ws_inits w)
          (w_calls w ++ [c]) (w_upstream w) (w_downstream w) (w_panicked w).
Definition add_upstream (e : Event) (w : World) : World :=
  mkWorld (w_rc_enigo w) (w_rc_inits w) (w_ws_enigo w) (w_ws_inits w)
          (w_calls w) (w_upstream w ++ [e]) (w_downstream w) (w_panicked w).
Definition add_downstream (i : Item) (w : World) : World :=
  mkWorld (w_rc_enigo w) (w_rc_inits w) (w_ws_enigo w) (w_ws_inits w)
          (w_calls w) (w_upstream w) (w_downstream w ++ [i]) (w_panicked w).
Definition set_panicked (w : World) : World :=
  mkWorld (w_rc_enigo w) (w_rc_inits w) (w_ws_enigo w) (w_ws_inits w)
          (w_calls w) (w_upstream w) (w_downstream w) true.

(** ** The monad: state, Rust panics, and the emitted log lines *)

Inductive Res (A : Type) :=
| Done (a : A) (w : World) (logs : list Log)
| Panic (msg : string) (w : World) (logs : list Log).
Arguments Done {A}.
Arguments Panic {A}.

Definition M (A : Type) := World -> Res A.

Definition ret {A} (a : A) : M A := fun w => Done a w [].

Definition bind {A B} (m : M A) (k : A -> M B) : M B :=
  fun w =>
    match m w with
    | Done a w1 l1 =>
        match k a w1 with
        | Done b w2 l2 => Done b w2 (l1 ++ l2)
        | Panic s w2 l2 => Panic s w2 (l1 ++ l2)
        end
    | Panic s w1 l1 => Panic s w1 l1
    end.

Notation "x <- m ;; k" := (bind m (fun x => k))
  (at level 61, m at next level, right associativity).
Notation "m ;; k" := (bind m (fun _ => k))
  (at level 61, right associativity).

Definition log (lvl : Level) (msg : string) : M unit :=
  fun w => Done tt w [mkLog lvl msg].

Definition panic {A} (msg : string) : M A := fun w => Panic msg w [].

(** [opt.expect(msg)] *)
Definition expect {A} (o : option A) (msg : string) : M A :=
  match o with Some a => ret a | None => panic msg end.

Definition res_world {A} (r : Res A) : World :=
  match r with Done _ w _ => w | Panic _ w _ => w end.

Definition is_panic {A} (r : Res A) : bool :=
  match r with Done _ _ _ => false | Panic _ _ _ => true end.

Definition with_logs {A} (l : list Log) (r : Res A) : Res A :=
  match r with
  | Done a w l' => Done a w (l ++ l')
  | Panic s w l' => Panic s w (l ++ l')
  end.

(** ** External collaborators *)

Record Env := mkEnv {
  os_new : bool;                  (* Enigo::new(&Settings::default()) is Ok *)
  os_call : nat -> Call -> bool;  (* Ok/Err of the n-th backend call *)
  peer_upstream : Event -> bool;  (* sinkpad.push_event(e) *)
  peer_downstream : Event -> bool;(* srcpad.push_event(e) *)
  peer_buffer : nat -> Flow       (* srcpad.push(buffer) *)
}.

(** The modifiers released right after construction (both crates). *)
Definition modifiers : list Key :=
  [CapsLock; Shift; LShift; RShift; Control; LControl; RControl; Alt; Meta].

(** ** The named-key table: the [match key_str.as_str()] of imp.rs 275-326
    and remotecontrol.rs 124-175 (the two tables are identical). *)
Definition named_keys : list (string * Key) :=
  [("Backspace", Backspace); ("Delete", Delete); ("Tab", Tab);
   ("Enter", Return); ("Shift", Shift); ("ShiftLeft", LShift);
   ("ShiftRight", RShift); ("Control", Control); ("ControlLeft", LControl);
   ("ControlRight", RControl); ("Alt", Alt); ("AltLeft", Alt);
   ("AltRight", Alt); ("Meta", Meta); ("MetaLeft", Meta);
   ("MetaRight", Meta); ("CapsLock", CapsLock); ("Escape", Escape);
   ("Space", Space); ("PageUp", PageUp); ("PageDown", PageDown);
   ("End", End); ("Home", Home); ("ArrowLeft", LeftArrow);
   ("ArrowUp", UpArrow); ("ArrowRight", RightArrow);
   ("ArrowDown", DownArrow);
   ("F1", F1); ("F2", F2); ("F3", F3); ("F4", F4); ("F5", F5);
   ("F6", F6); ("F7", F7); ("F8", F8); ("F9", F9); ("F10", F10);
   ("F11", F11); ("F12", F12); ("F13", F13); ("F14", F14); ("F15", F15);
   ("F16", F16); ("F17", F17); ("F18", F18); ("F19", F19); ("F20", F20)].

(** Arms are tried in order, each an exact string comparison. *)
Fixpoint lookup_named (tbl : list (string * Key)) (s : rstring) : option Key :=
  match tbl with
  | [] => None
  | (n, k) :: tbl' => if is_lit s n then Some k else lookup_named tbl' s
  end.

(** The value of the inner [match]: a key, or one of the two early
    [return]s of the [_] arm. *)
Inductive KeyRes := KeyFound (k : Key) | KeyMulti | KeyEmpty.

Definition resolve_key (key_str : rstring) : KeyRes :=
  match lookup_named named_keys key_str with
  | Some k => KeyFound k
  | None =>
      (* let mut chars = key_str.chars(); match chars.next() { .. } *)
      match key_str with
      | c :: rest =>
          match rest with
          | _ :: _ => KeyMulti            (* chars.next().is_some() *)
          | [] => KeyFound (Unicode c)
          end
      | [] => KeyEmpty
      end
  end.

Section Element.

Variable env : Env.

(** One backend call; its [Result] is decided by the environment. *)
Definition os (c : Call) : M bool :=
  fun w => Done (os_call env (List.length (w_calls w)) c) (add_call c w) [].

(** [for key in [..] { enigo.key(key, Direction::Release); }]: every result
    is dropped. *)
Fixpoint release_all (ks : list Key) : M unit :=
  match ks with
  | [] => ret tt
  | k :: ks' => _ <- os (CKey k Release) ;; release_all ks'
  end.

(** [fn enigo() -> &'static mut Enigo] of crate [cr]. *)
Definition enigo (cr : Crate) : M nat :=
  fun w =>
    match once_of cr w with
    | Ready id => Done id w []
    | Poisoned => Panic "Once instance has previously been poisoned" w []
    | Uninit =>
        if os_new env then
          let id := inits_of cr w in
          (release_all modifiers ;;
           (fun w' => Done id (set_once cr (Ready id) w') []))
            (bump_inits cr w)
        else Panic "Failed to create enigo" (set_once cr Poisoned w) []
    end.

(** [self.sinkpad.push_event(event)] *)
Definition sinkpad_push_event (e : Event) : M bool :=
  fun w => Done (peer_upstream env e) (add_upstream e w) [].

(** [self.srcpad.push_event(event)] *)
Definition srcpad_push_event (e : Event) : M bool :=
  fun w => Done (peer_downstream env e) (add_downstream (IEvent e) w) [].

(** [self.srcpad.push(buffer)] *)
Definition srcpad_push (b : nat) : M Flow :=
  fun w => Done (peer_buffer env b) (add_downstream (IBuffer b) w) [].

(** ** Filter shape: [RemoteControl::src_event] (imp.rs 206-392)

    The value of the big [match] is [Some b] when an arm executed
    [return b], [None] when control fell through to the final
    [self.sinkpad.push_event(event)]. *)
Definition src_event (event : Event) : M bool :=
  match event with
  | Navigation structure =>
      event_name <- expect (get_str structure "event")
                      "`GstNavigation event should have a property `event`" ;;
      handled <-
        (if is_lit event_name "mouse-move" then
           x <- expect (get_f64 structure "pointer_x") "Missing `pointer_x`" ;;
           y <- expect (get_f64 structure "pointer_y") "Missing `pointer_y`" ;;
           log LDebug "Mouse moved to" ;;
           _ <- enigo RemoteControlCrate ;;
           _ <- os (CMove (f64_trunc_as_i32 x) (f64_trunc_as_i32 y) Abs) ;;
           ret (Some true)
         else if is_lit event_name "mouse-button-press"
                 || is_lit event_name "mouse-button-release" then
           log LError "Mouse button" ;;
           evt_button <- expect (get_i32 structure "button") "Missing `button`" ;;
           if (1 <=? evt_button) && (evt_button <=? 3) then
             let button :=
               if evt_button =? 1 then Left
               else if evt_button =? 2 then Middle
               else Right in
             let direction :=
               if is_lit event_name "mouse-button-press" then Press else Release in
             _ <- enigo RemoteControlCrate ;;
             _ <- os (CButton button direction) ;;
             ret (Some true)
           else ret None
         else if is_lit event_name "mouse-scroll" then
           log LError "Mouse scroll" ;;
           dx <- expect (get_f64 structure "delta_pointer_x") "Missing `delta_pointer_x`" ;;
           let delta_x := f64_as_i32 dx in
           dy <- expect (get_f64 structure "delta_pointer_y") "Missing `delta_pointer_y`" ;;
           let delta_y := f64_as_i32 dy in
           (if negb (delta_x =? 0) then
              _ <- enigo RemoteControlCrate ;;
              _ <- os (CScroll delta_x Horizontal) ;;
              ret tt
            else ret tt) ;;
           (if negb (delta_y =? 0) then
              _ <- enigo RemoteControlCrate ;;
              _ <- os (CScroll delta_y Vertical) ;;
              ret tt
            else ret tt) ;;
           ret None
         else if is_lit event_name "key-press" || is_lit event_name "key-release" then
           log LError "Key something" ;;
           match get_str structure "key" with
           | Some key_str =>
               match resolve_key key_str with
               | KeyFound key =>
                   let direction :=
                     if is_lit event_name "key-press" then Press else Release in
                   log LError "Key" ;;
                   _ <- enigo RemoteControlCrate ;;
                   res <- os (CKey key direction) ;;
                   (if res then ret tt else log LError "Failed to send key event") ;;
                   ret (Some true)
               | KeyMulti => log LError "Multi-character `key`" ;; ret (Some true)
               | KeyEmpty => log LError "Empty `key`" ;; ret (Some true)
               end
           | None => log LError "`key` not found in" ;; ret (Some true)
           end
         else
           log LError "Unhandled navigation event" ;; ret None) ;;
      match handled with
      | Some b => ret b
      | None => sinkpad_push_event event
      end
  | OtherEvent _ =>
      log LError "Not a navigation event" ;;
      sinkpad_push_event event
  end.

(** [if let Err(err) = res { gst::warning!(..) }] *)
Definition warn_on_err (res : bool) (msg : string) : M unit :=
  if res then ret tt else log LWarning msg.

(** ** Standalone shape: [handle_remotecontrol_event] (remotecontrol.rs 51-228) *)
Definition handle_remotecontrol_event (event : Event) : M unit :=
  match event with
  | Navigation structure =>
      event_name <- expect (get_str structure "event")
                      "`GstNavigation event should have a property `event`" ;;
      if is_lit event_name "mouse-move" then
        x <- expect (get_f64 structure "pointer_x") "Missing `pointer_x`" ;;
        y <- expect (get_f64 structure "pointer_y") "Missing `pointer_y`" ;;
        log LDebug "Mouse moved to" ;;
        _ <- enigo WebrtcCrate ;;
        res <- os (CMove (f64_trunc_as_i32 x) (f64_trunc_as_i32 y) Abs) ;;
        warn_on_err res "Mouse move did not succeed"
      else if is_lit event_name "mouse-button-press"
              || is_lit event_name "mouse-button-release" then
        log LDebug "Mouse button" ;;
        evt_button <- expect (get_i32 structure "button") "Missing `button`" ;;
        if (1 <=? evt_button) && (evt_button <=? 3) then
          let button :=
            if evt_button =? 1 then Left
            else if evt_button =? 2 then Middle
            else Right in
          let direction :=
            if is_lit event_name "mouse-button-press" then Press else Release in
          _ <- enigo WebrtcCrate ;;
          res <- os (CButton button direction) ;;
          warn_on_err res "Mouse press or release did not succeed"
        else ret tt
      else if is_lit event_name "mouse-scroll" then
        log LDebug "Mouse scroll" ;;
        dx <- expect (get_f64 structure "delta_pointer_x") "Missing `delta_pointer_x`" ;;
        let delta_x := f64_as_i32 dx in
        dy <- expect (get_f64 structure "delta_pointer_y") "Missing `delta_pointer_y`" ;;
        let delta_y := f64_as_i32 dy in
        (if negb (delta_x =? 0) then
           _ <- enigo WebrtcCrate ;;
           res <- os (CScroll delta_x Horizontal) ;;
           warn_on_err res "Mouse scroll did not succeed"
         else ret tt) ;;
        (if negb (delta_y =? 0) then
           _ <- enigo WebrtcCrate ;;
           res <- os (CScroll delta_y Vertical) ;;
           warn_on_err res "Mouse scroll did not succeed"
         else ret tt)
      else if is_lit event_name "key-press" || is_lit event_name "key-release" then
        log LDebug "Key press or release" ;;
        match get_str structure "key" with
        | Some key_str =>
            match resolve_key key_str with
            | KeyFound key =>
                let direction :=
                  if is_lit event_name "key-press" then Press else Release in
                _ <- enigo WebrtcCrate ;;
                res <- os (CKey key direction) ;;
                warn_on_err res "Key press or release did not succeed"
            | KeyMulti => log LError "Multi-character `key`"
            | KeyEmpty => log LError "Empty `key`"
            end
        | None => log LWarning "`key` not found in"
        end
      else
        log LError "Unhandled navigation event"
  | OtherEvent _ =>
      log LDebug "Not a navigation event"
  end.

(** ** Filter shape: the sink pad (imp.rs 176-199) *)

Definition sink_chain (buffer : nat) : M Flow :=
  log LDebug "sink_chain" ;;
  srcpad_push buffer.

Definition sink_event (event : Event) : M bool :=
  log LDebug "sink_event" ;;
  (match event with
   | Navigation _ => log LInfo "Received navigation event"
   | OtherEvent _ => ret tt
   end) ;;
  (* the result of push_event is dropped *)
  _ <- srcpad_push_event event ;;
  ret true.

(** ** Pad functions

    Every pad function is installed through gstreamer-rs'
    [catch_panic_pad_function] (imp.rs 67-111): once the element has
    panicked, it posts an error and answers the fallback without running the
    function; a panic is caught, sets the flag, posts an error (here a log
    line) and answers the fallback. *)
Definition catch_panic_pad_function {A} (fallback : A) (f : M A) : M A :=
  fun w =>
    if w_panicked w then Done fallback w [mkLog LError "Panicked"]
    else match f w with
         | Done a w' l => Done a w' l
         | Panic msg w' l => Done fallback (set_panicked w') (l ++ [mkLog LError msg])
         end.

Definition src_pad_event (e : Event) : M bool := catch_panic_pad_function false (src_event e).
Definition sink_pad_event (e : Event) : M bool := catch_panic_pad_function false (sink_event e).
Definition sink_pad_chain (b : nat) : M Flow := catch_panic_pad_function FlowError (sink_chain b).

(** A process: inputs reaching the element's pads, or the host calling the
    standalone handler (whose panic unwinds into the caller and ends the
    run). *)
Inductive Input :=
| SrcEvent (e : Event)
| SinkEvent (e : Event)
| SinkChain (b : nat)
| Handle (e : Event).

Definition step (i : Input) : M unit :=
  match i with
  | SrcEvent e => _ <- src_pad_event e ;; ret tt
  | SinkEvent e => _ <- sink_pad_event e ;; ret tt
  | SinkChain b => _ <- sink_pad_chain b ;; ret tt
  | Handle e => handle_remotecontrol_event e
  end.

Fixpoint run (inputs : list Input) : M unit :=
  match inputs with
  | [] => ret tt
  | i :: rest => step i ;; run rest
  end.

End Element.

(** ** Observations used by the statements *)

(** The calls [enigo()] issues when it constructs the instance. *)
Definition release_calls : list Call := map (fun k => CKey k Release) modifiers.

(** Calls the accessor of crate [cr] adds before handing out the instance. *)
Definition init_calls (cr : Crate) (w : World) : list Call :=
  match once_of cr w with Uninit => release_calls | _ => [] end.

(** The accessor of [cr] can hand out an instance: it exists already, or
    it has not been built yet and [Enigo::new] succeeds. *)
Definition backend_usable (env : Env) (cr : Crate) (w : World) : Prop :=
  match once_of cr w with
  | Ready _ => True
  | Uninit => os_new env = true
  | Poisoned => False
  end.

(** Running [r] from [w] returned [a], appended exactly [cs] to the backend
    trace and [ups] to the events forwarded upstream, and pushed nothing
    downstream. *)
Definition outcome {A} (r : Res A) (w : World) (a : A)
    (cs : list Call) (ups : list Event) : Prop :=
  exists w' l, r = Done a w' l /\ w_calls w' = w_calls w ++ cs /\
    w_upstream w' = w_upstream w ++ ups /\ w_downstream w' = w_downstream w.

(** [enigo()] appends [cs] to the backend trace. *)
Definition add_calls (cs : list Call) (w : World) : World :=
  mkWorld (w_rc_enigo w) (w_rc_inits w) (w_ws_enigo w) (w_ws_inits w)
          (w_calls w ++ cs) (w_upstream w) (w_downstream w) (w_panicked w).

(** The state of [INIT]/[GLOBAL_ENIGO] of a crate agrees with the number of
    instances it has built: one once it holds an instance, none otherwise. *)
Definition once_inv (cr : Crate) (w : World) : Prop :=
  inits_of cr w = match once_of cr w with Ready _ => 1%nat | _ => 0%nat end /\
  match once_of cr w with Ready id => id = 0%nat | _ => True end.

(** Both crates' accessors satisfy [once_inv]. *)
Definition inv2 (w : World) : Prop :=
  once_inv RemoteControlCrate w /\ once_inv WebrtcCrate w.

(** A computation that keeps [inv2], whether it returns or panics. *)
Definition Pres {A} (m : M A) : Prop :=
  forall w, inv2 w -> inv2 (res_world (m w)).

(** The float-to-int conversion as the spec words it: truncate the exact
    value toward zero ([Z.quot]), then clamp to the [i32] range; NaN gives 0
    and the infinities the bounds. *)
Definition sf_trunc_exact (f : spec_float) : option Z :=
  match f with
  | S754_zero _ => Some 0
  | S754_finite s m e =>
      let n := if s then Zneg m else Zpos m in
      Some (if Z.leb 0 e then n * 2 ^ e else Z.quot n (2 ^ (- e)))
  | _ => None
  end.

Definition f64_to_i32_spec (x : float) : Z :=
  match Prim2SF x with
  | S754_nan => 0
  | S754_infinity s => if s then i32_min else i32_max
  | f => match sf_trunc_exact f with Some t => sat_i32 t | None => 0 end
  end.

Definition isSome {A} (o : option A) : bool :=
  match o with Some _ => true | None => false end.

(** When the standalone handler's [expect]s fire: the [event] field, or a
    numeric field its discriminator requires, is absent or mistyped. *)
Definition malformed (ev : Event) : bool :=
  match ev with
  | OtherEvent _ => false
  | Navigation st =>
      match get_str st "event" with
      | None => true
      | Some name =>
          if is_lit name "mouse-move" then
            negb (isSome (get_f64 st "pointer_x") && isSome (get_f64 st "pointer_y"))
          else if is_lit name "mouse-button-press" || is_lit name "mouse-button-release" then
            negb (isSome (get_i32 st "button"))
          else if is_lit name "mouse-scroll" then
            negb (isSome (get_f64 st "delta_pointer_x") && isSome (get_f64 st "delta_pointer_y"))
          else false
      end
  end.

(** ** Concrete inputs *)

(** A backend and peers that accept everything. *)
Definition env_ok : Env :=
  mkEnv true (fun _ _ => true) (fun _ => true) (fun _ => true) (fun _ => FlowOk).

(** A fresh process. *)
Definition world0 : World := mkWorld Uninit 0 Uninit 0 [] [] [] false.

(** A process whose filter already holds its instance. *)
Definition world_rc_ready : World := mkWorld (Ready 0) 1 Uninit 0 [] [] [] false.

Definition key_structure (name key : string) : Structure :=
  [("event", VString (lit name)); ("key", VString (lit key))].

Definition move_structure (x y : float) : Structure :=
  [("event", VString (lit "mouse-move")); ("pointer_x", VF64 x); ("pointer_y", VF64 y)].

Definition scroll_structure (dx dy : float) : Structure :=
  [("event", VString (lit "mouse-scroll"));
   ("delta_pointer_x", VF64 dx); ("delta_pointer_y", VF64 dy)].

Definition button_structure (name : string) (b : Z) : Structure :=
  [("event", VString (lit name)); ("button", VI32 b)].

(** ** Observations used by the further properties *)

(** Inputs that reach the filter element's pads. *)
Definition filter_input (i : Input) : bool :=
  match i with Handle _ => false | _ => true end.

(** The discriminators both translators act on. *)
Definition recognized (name : rstring) : bool :=
  is_lit name "mouse-move" || is_lit name "mouse-button-press" ||
  is_lit name "mouse-button-release" || is_lit name "mouse-scroll" ||
  is_lit name "key-press" || is_lit name "key-release".

(** The same environment, with the backend answering [f]. *)
Definition with_os_call (env : Env) (f : nat -> Call -> bool) : Env :=
  mkEnv (os_new env) f (peer_upstream env) (peer_downstream env) (peer_buffer env).

(** A result without its log lines. *)
Definition strip_logs {A} (r : Res A) : Res A :=
  match r with Done a w _ => Done a w [] | Panic s w _ => Panic s w [] end.

(** Running [m] keeps [P] of the world, whether it returns or panics. *)
Definition Keeps (P : World -> Prop) {A} (m : M A) : Prop :=
  forall w, P w -> P (res_world (m w)).

(** Two results agree on everything but the log lines, values related by [R]. *)
Definition rel_res {A B} (R : A -> B -> Prop) (r1 : Res A) (r2 : Res B) : Prop :=
  match r1, r2 with
  | Done a w1 _, Done b w2 _ => R a b /\ w1 = w2
  | Panic s1 w1 _, Panic s2 w2 _ => s1 = s2 /\ w1 = w2
  | _, _ => False
  end.

(** Two computations agree on every world, values related by [R]. *)
Definition Sim {A B} (R : A -> B -> Prop) (m1 : M A) (m2 : M B) : Prop :=
  forall w, rel_res R (m1 w) (m2 w).

(** The two accessors are in the same phase (instance numbers aside). *)
Definition state_match (o1 o2 : OnceState) : Prop :=
  match o1, o2 with
  | Uninit, Uninit | Poisoned, Poisoned | Ready _, Ready _ => True
  | _, _ => False
  end.

(** A filter world and a standalone world that have issued the same backend
    calls, with the two accessors in the same phase. *)
Definition shapes_rel (w1 w2 : World) : Prop :=
  w_calls w1 = w_calls w2 /\ state_match (w_rc_enigo w1) (w_ws_enigo w2).

(** Two results, the first of the filter and the second of the standalone
    handler, end in related worlds and agree on panicking. *)
Definition rel_resW {A B} (Rw : World -> World -> Prop) (R : A -> B -> Prop)
    (r1 : Res A) (r2 : Res B) : Prop :=
  match r1, r2 with
  | Done a w1 _, Done b w2 _ => R a b /\ Rw w1 w2
  | Panic _ w1 _, Panic _ w2 _ => Rw w1 w2
  | _, _ => False
  end.

(** Two computations that map related worlds to related results. *)
Definition SimW {A B} (Rw : World -> World -> Prop) (R : A -> B -> Prop)
    (m1 : M A) (m2 : M B) : Prop :=
  forall w1 w2, Rw w1 w2 -> rel_resW Rw R (m1 w1) (m2 w2).

(** Inputs for the filter pads only. *)
Definition filter_inputs_example : list Input :=
  [SrcEvent (Navigation (key_structure "key-press" "a")); SinkChain 0;
   SinkEvent (OtherEvent 1); SrcEvent (Navigation (move_structure 1.5%float 2.5%float))].

(** A [mouse-move] event without [pointer_x]. *)
Definition missing_x_event : Event :=
  Navigation [("event", VString (lit "mouse-move")); ("pointer_y", VF64 1.0%float)].

(** A platform on which [Enigo::new] fails. *)
Definition env_no_backend : Env :=
  mkEnv false (fun _ _ => true) (fun _ => true) (fun _ => true) (fun _ => FlowOk).

(** The warning the standalone handler logs when the backend returns [Err]
    for one of its own calls. *)
Definition failure_msg (c : Call) : string :=
  match c with
  | CMove _ _ _ => "Mouse move did not succeed"
  | CButton _ _ => "Mouse press or release did not succeed"
  | CScroll _ _ => "Mouse scroll did not succeed"
  | CKey _ _ => "Key press or release did not succeed"
  end.

(** Position in the backend trace of the first call the standalone handler
    makes itself, after the [Release] calls of a first construction. *)
Definition handler_base (w : World) : nat :=
  List.length (w_calls w ++ init_calls WebrtcCrate w).

(** ** Basic lemmas *)

Lemma rstring_eqb_eq : forall a b, rstring_eqb a b = true <-> a = b.
Proof.
  induction a as [|x a IH]; destruct b as [|y b]; cbn; try (split; congruence).
  rewrite andb_true_iff, Z.eqb_eq, IH. split; [intros [-> ->]; reflexivity|].
  intros H; injection H; auto.
Qed.

Lemma is_lit_refl : forall l, is_lit (lit l) l = true.
Proof. intros l. apply rstring_eqb_eq. reflexivity. Qed.

Lemma resolve_named : forall s k,
  lookup_named named_keys s = Some k -> resolve_key s = KeyFound k.
Proof. intros s k H. unfold resolve_key. rewrite H. reflexivity. Qed.

Lemma resolve_empty : resolve_key [] = KeyEmpty.
Proof. reflexivity. Qed.

Lemma resolve_single : forall c,
  lookup_named named_keys [c] = None -> resolve_key [c] = KeyFound (Unicode c).
Proof. intros c H. unfold resolve_key. rewrite H. reflexivity. Qed.

Lemma resolve_multi : forall s,
  lookup_named named_keys s = None -> (2 <= List.length s)%nat -> resolve_key s = KeyMulti.
Proof.
  intros s H Hl. unfold resolve_key. rewrite H.
  destruct s as [|c [|d r]]; cbn in Hl; [lia|lia|reflexivity].
Qed.

(** Brute-force evaluation of a handler: split the world into its fields
    and the once-state of the crate, then compute. *)
Ltac split_world w :=
  let rc := fresh "rc" in let rci := fresh "rci" in
  let ws := fresh "ws" in let wsi := fresh "wsi" in
  let cs := fresh "cs" in let up := fresh "up" in
  let dn := fresh "dn" in let pn := fresh "pn" in
  destruct w as [rc rci ws wsi cs up dn pn].

Ltac eval_lits :=
  repeat match goal with
         | |- context [is_lit (lit ?a) ?b] =>
             let v := eval vm_compute in (is_lit (lit a) b) in
             change (is_lit (lit a) b) with v
         end.

Ltac run_cbv :=
  unfold enigo;
  repeat match goal with
         | H : os_new ?e = true |- context [os_new ?e] => rewrite H
         end;
  unfold outcome; cbv - [os_call app f64_as_i32 f64_trunc_as_i32].

Ltac finish_outcome :=
  cbv - [os_call app f64_as_i32 f64_trunc_as_i32];
  repeat match goal with
         | |- context [match os_call ?e ?n ?c with _ => _ end] =>
             destruct (os_call e n c); cbv - [os_call app f64_as_i32 f64_trunc_as_i32]
         end;
  eexists _, _; (split; [reflexivity|]);
  rewrite ?app_nil_r, <- ?app_assoc; repeat split; reflexivity.

Ltac solve_outcome := run_cbv; finish_outcome.

Ltac step_code :=
  cbn - [resolve_key enigo is_lit lit f64_as_i32 f64_trunc_as_i32]; eval_lits.

Ltac usable_cases w cr :=
  unfold backend_usable, init_calls in *;
  let rc := fresh "rc" in let ws := fresh "ws" in
  destruct w as [rc ? ws ? ? ? ? ?];
  cbn [once_of w_rc_enigo w_ws_enigo] in *;
  match cr with
  | RemoteControlCrate => destruct rc
  | WebrtcCrate => destruct ws
  end; try contradiction.

(** *** The [as i32] casts agree with the spec-worded conversion *)

Lemma shiftl_neg_div : forall m e, e < 0 -> Z.shiftl (Zpos m) e = Zpos m / 2 ^ (- e).
Proof.
  intros m e He. rewrite <- Z.shiftr_opp_r, Z.shiftr_div_pow2; [reflexivity|lia].
Qed.

Lemma quot_pos_neg : forall m d, 0 < d ->
  Z.quot (Zneg m) d = - (Zpos m / d) /\ Z.quot (Zpos m) d = Zpos m / d.
Proof.
  intros m d Hd. change (Zneg m) with (- Zpos m).
  rewrite Z.quot_opp_l by lia. rewrite Z.quot_div_nonneg by lia. split; reflexivity.
Qed.

Lemma sf_as_i32_spec : forall f,
  sf_as_i32 f = match f with
                | S754_nan => 0
                | S754_infinity s => if s then i32_min else i32_max
                | _ => match sf_trunc_exact f with Some t => sat_i32 t | None => 0 end
                end.
Proof.
  intros [s|s| |s m e]; try reflexivity.
  cbn [sf_as_i32 sf_trunc_exact].
    destruct (Z.leb_spec 0 e) as [He|He].
  - rewrite Z.shiftl_mul_pow2 by lia. destruct s; [f_equal; lia|reflexivity].
  - rewrite shiftl_neg_div by lia.
    destruct (quot_pos_neg m (2 ^ (- e))) as [Hn Hp]; [apply Z.pow_pos_nonneg; lia|].
    destruct s; [rewrite Hn|rewrite Hp]; reflexivity.
Qed.

Lemma f64_as_i32_spec : forall x, f64_as_i32 x = f64_to_i32_spec x.
Proof. intros x. unfold f64_as_i32, f64_to_i32_spec. rewrite sf_as_i32_spec. destruct (Prim2SF x); reflexivity. Qed.

Lemma sf_trunc_as_i32 : forall f, sf_as_i32 (sf_trunc f) = sf_as_i32 f.
Proof.
  intros [s|s| |s m e]; try reflexivity.
  cbn [sf_trunc]. destruct (Z.leb_spec 0 e) as [He|He]; [reflexivity|].
  assert (Hnn : 0 <= Z.shiftl (Zpos m) e) by (apply Z.shiftl_nonneg; lia).
  cbn [sf_as_i32].
  destruct (Z.shiftl (Zpos m) e) as [|q|q] eqn:Eq; [| |lia].
  - cbn. destruct s; reflexivity.
  - cbn [sf_as_i32]. rewrite Z.shiftl_0_r. reflexivity.
Qed.

Lemma f64_trunc_as_i32_spec : forall x, f64_trunc_as_i32 x = f64_to_i32_spec x.
Proof. intros x. unfold f64_trunc_as_i32. rewrite sf_trunc_as_i32. apply f64_as_i32_spec. Qed.

(** The key arm of both shapes, given what [resolve_key] answers. *)
Section KeyArm.
Variables (env : Env) (st : Structure) (name : rstring) (dir : Direction)
          (ks : rstring) (w : World).
Hypothesis Hev : get_str st "event" = Some name.
Hypothesis Hname : (name = lit "key-press" /\ dir = Press) \/
                   (name = lit "key-release" /\ dir = Release).
Hypothesis Hkey : get_str st "key" = Some ks.

Lemma src_key_found : forall k,
  resolve_key ks = KeyFound k ->
  backend_usable env RemoteControlCrate w ->
  outcome (src_event env (Navigation st) w) w true
    (init_calls RemoteControlCrate w ++ [CKey k dir]) [].
Proof.
  intros k Hr Hu.
  destruct Hname as [[-> ->]|[-> ->]]; unfold src_event; rewrite Hev;
    step_code; rewrite Hkey, Hr; eval_lits;
    usable_cases w RemoteControlCrate; solve_outcome.
Qed.

Lemma handle_key_found : forall k,
  resolve_key ks = KeyFound k ->
  backend_usable env WebrtcCrate w ->
  outcome (handle_remotecontrol_event env (Navigation st) w) w tt
    (init_calls WebrtcCrate w ++ [CKey k dir]) [].
Proof.
  intros k Hr Hu.
  destruct Hname as [[-> ->]|[-> ->]]; unfold handle_remotecontrol_event; rewrite Hev;
    step_code; rewrite Hkey, Hr; eval_lits;
    usable_cases w WebrtcCrate; solve_outcome.
Qed.

Lemma src_key_error : forall r msg,
  resolve_key ks = r ->
  (r = KeyMulti /\ msg = "Multi-character `key`") \/
  (r = KeyEmpty /\ msg = "Empty `key`") ->
  src_event env (Navigation st) w =
    Done true w [mkLog LError "Key something"; mkLog LError msg].
Proof.
  intros r msg Hr Hm.
  destruct Hname as [[-> ->]|[-> ->]]; unfold src_event; rewrite Hev;
    step_code; rewrite Hkey, Hr;
    destruct Hm as [[-> ->]|[-> ->]]; reflexivity.
Qed.

Lemma handle_key_error : forall r msg,
  resolve_key ks = r ->
  (r = KeyMulti /\ msg = "Multi-character `key`") \/
  (r = KeyEmpty /\ msg = "Empty `key`") ->
  handle_remotecontrol_event env (Navigation st) w =
    Done tt w [mkLog LDebug "Key press or release"; mkLog LError msg].
Proof.
  intros r msg Hr Hm.
  destruct Hname as [[-> ->]|[-> ->]]; unfold handle_remotecontrol_event; rewrite Hev;
    step_code; rewrite Hkey, Hr;
    destruct Hm as [[-> ->]|[-> ->]]; reflexivity.
Qed.

End KeyArm.

(** *** [enigo()] and the invariant of the two [Once]s *)

Lemma release_all_calls : forall env ks w,
  release_all env ks w = Done tt (add_calls (map (fun k => CKey k Release) ks) w) [].
Proof.
  intros env ks. induction ks as [|k ks IH]; intros w.
  - destruct w; unfold add_calls; cbn. rewrite app_nil_r. reflexivity.
  - cbn [release_all]. unfold bind, os. rewrite IH.
    destruct w; unfold add_calls; cbn. rewrite <- app_assoc. reflexivity.
Qed.

Lemma enigo_uninit : forall env cr w,
  once_of cr w = Uninit -> os_new env = true ->
  enigo env cr w =
    Done (inits_of cr w)
      (set_once cr (Ready (inits_of cr w)) (add_calls release_calls (bump_inits cr w))) [].
Proof.
  intros env cr w Hu Hn. unfold enigo, bind. rewrite Hu, Hn, release_all_calls.
  destruct cr, w; reflexivity.
Qed.

Lemma pres_ret : forall A (a : A), Pres (ret a).
Proof. intros A a w H. exact H. Qed.

Lemma pres_bind : forall A B (m : M A) (k : A -> M B),
  Pres m -> (forall a, Pres (k a)) -> Pres (bind m k).
Proof.
  intros A B m k Hm Hk w H. unfold bind.
  specialize (Hm w H). destruct (m w) as [a w1 l1|s w1 l1]; cbn in *; [|exact Hm].
  specialize (Hk a w1 Hm). destruct (k a w1); exact Hk.
Qed.

Lemma pres_log : forall l s, Pres (log l s).
Proof. intros l s w H. exact H. Qed.

Lemma pres_panic : forall A s, Pres (@panic A s).
Proof. intros A s w H. exact H. Qed.

Lemma pres_expect : forall A (o : option A) s, Pres (expect o s).
Proof. intros A [a|] s; [apply pres_ret|apply pres_panic]. Qed.

Lemma pres_os : forall env c, Pres (os env c).
Proof. intros env c w H. exact H. Qed.

Lemma pres_sinkpad : forall env e, Pres (sinkpad_push_event env e).
Proof. intros env e w H. exact H. Qed.

Lemma pres_srcpad_event : forall env e, Pres (srcpad_push_event env e).
Proof. intros env e w H. exact H. Qed.

Lemma pres_srcpad : forall env b, Pres (srcpad_push env b).
Proof. intros env b w H. exact H. Qed.

Lemma pres_enigo : forall env cr, Pres (enigo env cr).
Proof.
  intros env cr w H.
  destruct (once_of cr w) eqn:Ho.
  - destruct (os_new env) eqn:Hn.
    + rewrite (enigo_uninit env cr w Ho Hn).
      destruct cr, w; unfold inv2, once_inv in *; cbn in *; subst; cbn in *; intuition lia.
    + unfold enigo. rewrite Ho, Hn.
      destruct cr, w; unfold inv2, once_inv in *; cbn in *; subst; cbn in *; intuition lia.
  - unfold enigo. rewrite Ho. exact H.
  - unfold enigo. rewrite Ho. exact H.
Qed.

Ltac pres_tac :=
  repeat (cbv beta zeta;
    match goal with
    | |- Pres (bind _ _) => apply pres_bind; [|intro]
    | |- Pres (ret _) => apply pres_ret
    | |- Pres (log _ _) => apply pres_log
    | |- Pres (expect _ _) => apply pres_expect
    | |- Pres (os _ _) => apply pres_os
    | |- Pres (enigo _ _) => apply pres_enigo
    | |- Pres (sinkpad_push_event _ _) => apply pres_sinkpad
    | |- Pres (srcpad_push_event _ _) => apply pres_srcpad_event
    | |- Pres (srcpad_push _ _) => apply pres_srcpad
    | |- Pres (warn_on_err ?r _) => unfold warn_on_err; destruct r
    | |- Pres (if ?b then _ else _) => destruct b
    | |- Pres (match ?x with _ => _ end) => destruct x
    end).

Lemma pres_src_event : forall env e, Pres (src_event env e).
Proof. intros env e. unfold src_event. pres_tac. Qed.

Lemma pres_handle : forall env e, Pres (handle_remotecontrol_event env e).
Proof. intros env e. unfold handle_remotecontrol_event. pres_tac. Qed.

Lemma pres_sink_event : forall env e, Pres (sink_event env e).
Proof. intros env e. unfold sink_event. pres_tac. Qed.

Lemma pres_sink_chain : forall env b, Pres (sink_chain env b).
Proof. intros env b. unfold sink_chain. pres_tac. Qed.

Lemma pres_catch : forall A (fb : A) m, Pres m -> Pres (catch_panic_pad_function fb m).
Proof.
  intros A fb m Hm w H. unfold catch_panic_pad_function.
  destruct (w_panicked w); [exact H|].
  specialize (Hm w H). destruct (m w); exact Hm.
Qed.

Lemma pres_run : forall env inputs, Pres (run env inputs).
Proof.
  intros env inputs. induction inputs as [|i rest IH]; cbn [run].
  - apply pres_ret.
  - apply pres_bind; [|intros; exact IH].
    destruct i; cbn [step].
    + apply pres_bind; [apply pres_catch, pres_src_event|intros; apply pres_ret].
    + apply pres_bind; [apply pres_catch, pres_sink_event|intros; apply pres_ret].
    + apply pres_bind; [apply pres_catch, pres_sink_chain|intros; apply pres_ret].
    + apply pres_handle.
Qed.

(** *** Case analysis of a whole handler *)

Ltac cbv_handler :=
  cbv - [os_call app f64_as_i32 f64_trunc_as_i32 is_lit get_f64 get_i32 get_str resolve_key Z.leb Z.eqb].

Ltac split_matches :=
  repeat (cbv_handler;
    match goal with
    | |- context [match is_lit ?a ?b with _ => _ end] => destruct (is_lit a b)
    | |- context [match get_f64 ?a ?b with _ => _ end] => destruct (get_f64 a b)
    | |- context [match get_i32 ?a ?b with _ => _ end] => destruct (get_i32 a b)
    | |- context [match get_str ?a ?b with _ => _ end] => destruct (get_str a b)
    | |- context [match resolve_key ?a with _ => _ end] => destruct (resolve_key a)
    | |- context [match os_call ?e ?n ?c with _ => _ end] => destruct (os_call e n c)
    | |- context [match Z.eqb ?a ?b with _ => _ end] => destruct (Z.eqb a b)
    | |- context [match Z.leb ?a ?b with _ => _ end] => destruct (Z.leb a b)
    end); cbv_handler.

(** *** Properties kept along a run *)

Section KeepsLemmas.
Variable P : World -> Prop.
Variable env : Env.

Lemma keeps_ret : forall A (a : A), Keeps P (ret a).
Proof. intros A a w H. exact H. Qed.

Lemma keeps_bind : forall A B (m : M A) (k : A -> M B),
  Keeps P m -> (forall a, Keeps P (k a)) -> Keeps P (bind m k).
Proof.
  intros A B m k Hm Hk w H. unfold bind.
  specialize (Hm w H). destruct (m w) as [a w1 l1|s w1 l1]; cbn in *; [|exact Hm].
  specialize (Hk a w1 Hm). destruct (k a w1); exact Hk.
Qed.

Lemma keeps_log : forall l s, Keeps P (log l s).
Proof. intros l s w H. exact H. Qed.

Lemma keeps_expect : forall A (o : option A) s, Keeps P (expect o s).
Proof. intros A [a|] s w H; exact H. Qed.

Lemma keeps_os : (forall c w, P w -> P (add_call c w)) -> forall c, Keeps P (os env c).
Proof. intros Hc c w H. apply Hc, H. Qed.

Lemma keeps_sinkpad : (forall e w, P w -> P (add_upstream e w)) ->
  forall e, Keeps P (sinkpad_push_event env e).
Proof. intros He e w H. apply He, H. Qed.

Lemma keeps_srcpad_event : (forall i w, P w -> P (add_downstream i w)) ->
  forall e, Keeps P (srcpad_push_event env e).
Proof. intros He e w H. apply He, H. Qed.

Lemma keeps_srcpad : (forall i w, P w -> P (add_downstream i w)) ->
  forall b, Keeps P (srcpad_push env b).
Proof. intros He b w H. apply He, H. Qed.

Lemma keeps_enigo : forall cr,
  (forall w, P w -> once_of cr w = Uninit -> os_new env = true ->
     P (set_once cr (Ready (inits_of cr w)) (add_calls release_calls (bump_inits cr w)))) ->
  (forall w, P w -> once_of cr w = Uninit -> os_new env = false ->
     P (set_once cr Poisoned w)) ->
  Keeps P (enigo env cr).
Proof.
  intros cr Hr Hp w H.
  destruct (once_of cr w) eqn:Ho.
  - destruct (os_new env) eqn:Hn.
    + rewrite (enigo_uninit env cr w Ho Hn). apply Hr; auto.
    + unfold enigo. rewrite Ho, Hn. apply Hp; auto.
  - unfold enigo. rewrite Ho. exact H.
  - unfold enigo. rewrite Ho. exact H.
Qed.

Lemma keeps_catch : (forall w, P w -> P (set_panicked w)) ->
  forall A (fb : A) m, Keeps P m -> Keeps P (catch_panic_pad_function fb m).
Proof.
  intros Hs A fb m Hm w H. unfold catch_panic_pad_function. cbv beta.
  destruct (w_panicked w); [exact H|].
  specialize (Hm w H). destruct (m w); cbn [res_world] in *; [exact Hm|apply Hs, Hm].
Qed.

End KeepsLemmas.

(** Walk a handler's code; [tac] proves what each primitive needs of [P]. *)
Ltac keeps_tac tac :=
  repeat (cbv beta zeta;
    match goal with
    | |- Keeps _ (bind _ _) => apply keeps_bind; [|intro]
    | |- Keeps _ (ret _) => apply keeps_ret
    | |- Keeps _ (log _ _) => apply keeps_log
    | |- Keeps _ (expect _ _) => apply keeps_expect
    | |- Keeps _ (os _ _) => apply keeps_os; tac
    | |- Keeps _ (enigo _ _) => apply keeps_enigo; tac
    | |- Keeps _ (sinkpad_push_event _ _) => apply keeps_sinkpad; tac
    | |- Keeps _ (srcpad_push_event _ _) => apply keeps_srcpad_event; tac
    | |- Keeps _ (srcpad_push _ _) => apply keeps_srcpad; tac
    | |- Keeps _ (warn_on_err ?r _) => unfold warn_on_err; destruct r
    | |- Keeps _ (if ?b then _ else _) => destruct b
    | |- Keeps _ (match ?x with _ => _ end) => destruct x
    end).

Ltac world_solve :=
  intros;
  repeat match goal with w : World |- _ => destruct w end;
  unfold set_once, bump_inits, add_calls, add_call, add_upstream, add_downstream,
    set_panicked, once_of, inits_of in *;
  cbn in *; intuition congruence.

Lemma keeps_step : forall P env i,
  (forall c w, P w -> P (add_call c w)) ->
  (forall e w, P w -> P (add_upstream e w)) ->
  (forall it w, P w -> P (add_downstream it w)) ->
  (forall w, P w -> P (set_panicked w)) ->
  (forall cr w, P w -> once_of cr w = Uninit -> os_new env = true ->
     P (set_once cr (Ready (inits_of cr w)) (add_calls release_calls (bump_inits cr w)))) ->
  (forall cr w, P w -> once_of cr w = Uninit -> os_new env = false ->
     P (set_once cr Poisoned w)) ->
  Keeps P (step env i).
Proof.
  intros P env i Hc Hu Hd Hs Hr Hp.
  destruct i; cbn [step];
    try (apply keeps_bind; [apply keeps_catch; [exact Hs|]|intros; apply keeps_ret]);
    [unfold src_event|unfold sink_event|unfold sink_chain|unfold handle_remotecontrol_event];
    keeps_tac ltac:(first [exact Hc|exact Hu|exact Hd|apply Hr|apply Hp]).
Qed.

Lemma keeps_run : forall P env inputs,
  (forall i, Keeps P (step env i)) -> Keeps P (run env inputs).
Proof.
  intros P env inputs Hstep. induction inputs as [|i rest IH]; cbn [run].
  - apply keeps_ret.
  - apply keeps_bind; [apply Hstep|intros; exact IH].
Qed.

Lemma catch_done : forall A (fb : A) m w,
  exists a w' l, catch_panic_pad_function fb m w = Done a w' l.
Proof.
  intros A fb m w. unfold catch_panic_pad_function.
  destruct (w_panicked w); [eauto|]. destruct (m w); eauto.
Qed.

Lemma step_filter_done : forall env i w, filter_input i = true ->
  exists w' l, step env i w = Done tt w' l.
Proof.
  intros env i w Hi. destruct i; try discriminate; cbn [step];
    [ destruct (catch_done bool false (src_event env e) w) as (a & w' & l & E)
    | destruct (catch_done bool false (sink_event env e) w) as (a & w' & l & E)
    | destruct (catch_done Flow FlowError (sink_chain env b) w) as (a & w' & l & E) ];
    unfold bind, src_pad_event, sink_pad_event, sink_pad_chain; rewrite E;
    eexists _, _; reflexivity.
Qed.

Lemma step_panicked : forall env i w, filter_input i = true -> w_panicked w = true ->
  exists l, step env i w = Done tt w l.
Proof.
  intros env i w Hi Hp. destruct i; try discriminate; cbn [step];
    unfold bind, src_pad_event, sink_pad_event, sink_pad_chain, catch_panic_pad_function;
    rewrite Hp; eexists; reflexivity.
Qed.

Lemma run_panicked_inert : forall env inputs w,
  w_panicked w = true -> forallb filter_input inputs = true ->
  exists l, run env inputs w = Done tt w l.
Proof.
  intros env inputs. induction inputs as [|i rest IH]; intros w Hp Hall.
  - exists []. reflexivity.
  - cbn [forallb] in Hall. apply andb_true_iff in Hall as [Hi Hrest].
    destruct (step_panicked env i w Hi Hp) as [l1 E1].
    destruct (IH w Hp Hrest) as [l2 E2].
    exists (l1 ++ l2). cbn [run]. unfold bind at 1. rewrite E1, E2. reflexivity.
Qed.

(** *** The filter's answer to a malformed event *)

Ltac cbv_src :=
  cbv - [os_call app f64_as_i32 f64_trunc_as_i32 is_lit get_f64 get_i32 get_str
         resolve_key Z.leb Z.eqb enigo].

Lemma src_event_malformed : forall env ev w, malformed ev = true ->
  exists msg l, src_event env ev w = Panic msg w l.
Proof.
  intros env [st|id] w H; [|discriminate].
  revert H. unfold src_event, malformed.
  repeat (cbv_src;
    match goal with
    | |- context [match is_lit ?a ?b with _ => _ end] => destruct (is_lit a b)
    | |- context [match get_f64 ?a ?b with _ => _ end] => destruct (get_f64 a b)
    | |- context [match get_i32 ?a ?b with _ => _ end] => destruct (get_i32 a b)
    | |- context [match get_str ?a ?b with _ => _ end] => destruct (get_str a b)
    end); cbv_src; intros H; try discriminate H; eexists _, _; reflexivity.
Qed.

(** *** Two runs that differ only in the backend's answers *)

Lemma rel_res_strip : forall A (r1 r2 : Res A),
  rel_res eq r1 r2 -> strip_logs r1 = strip_logs r2.
Proof. intros A [a1 w1 l1|s1 w1 l1] [a2 w2 l2|s2 w2 l2]; cbn; intuition congruence. Qed.

Lemma sim_refl : forall A (m : M A), Sim eq m m.
Proof. intros A m w. destruct (m w); cbn; auto. Qed.

Lemma sim_bind : forall A B C D (R : A -> B -> Prop) (S : C -> D -> Prop)
  (m1 : M A) (m2 : M B) k1 k2,
  Sim R m1 m2 -> (forall a b, R a b -> Sim S (k1 a) (k2 b)) ->
  Sim S (bind m1 k1) (bind m2 k2).
Proof.
  intros A B C D R S m1 m2 k1 k2 Hm Hk w. unfold bind.
  specialize (Hm w). destruct (m1 w) as [a w1 l1|s1 w1 l1], (m2 w) as [b w2 l2|s2 w2 l2];
    cbn in Hm; try contradiction; destruct Hm as [Hab <-]; [|cbn; auto].
  specialize (Hk a b Hab w1).
  destruct (k1 a w1), (k2 b w1); cbn in *; tauto.
Qed.

Lemma sim_os : forall env env' c, Sim (fun _ _ => True) (os env c) (os env' c).
Proof. intros env env' c w. cbn. auto. Qed.

Lemma sim_enigo : forall env env' cr, os_new env = os_new env' ->
  Sim eq (enigo env cr) (enigo env' cr).
Proof.
  intros env env' cr Hn w.
  destruct (once_of cr w) eqn:Ho.
  - destruct (os_new env) eqn:Hn1.
    + rewrite (enigo_uninit env cr w Ho Hn1), (enigo_uninit env' cr w Ho (eq_sym Hn)).
      cbn. auto.
    + unfold enigo. rewrite Ho, Hn1, <- Hn. cbn. auto.
  - unfold enigo. rewrite Ho. cbn. auto.
  - unfold enigo. rewrite Ho. cbn. auto.
Qed.

Lemma sim_sinkpad : forall env env' e, peer_upstream env = peer_upstream env' ->
  Sim eq (sinkpad_push_event env e) (sinkpad_push_event env' e).
Proof. intros env env' e Hp w. cbn. rewrite Hp. auto. Qed.

Lemma sim_unit_ret_ret : Sim eq (ret tt) (ret tt).
Proof. intros w. cbn. auto. Qed.
Lemma sim_unit_ret_log : forall l s, Sim eq (ret tt) (log l s).
Proof. intros l s w. cbn. auto. Qed.
Lemma sim_unit_log_ret : forall l s, Sim eq (log l s) (ret tt).
Proof. intros l s w. cbn. auto. Qed.
Lemma sim_unit_log_log : forall l s l' s', Sim eq (log l s) (log l' s').
Proof. intros l s l' s' w. cbn. auto. Qed.

(** Walk two copies of a handler that differ only in the backend's answers. *)
Ltac sim_tac :=
  repeat (cbv beta zeta;
    match goal with
    | H : ?a = ?b |- _ => subst a
    | |- Sim _ (bind _ _) (bind _ _) => eapply sim_bind; [|intros ?a ?b ?Hab]
    | |- Sim _ (os _ _) (os _ _) => apply sim_os
    | |- Sim _ (enigo _ _) (enigo _ _) => apply sim_enigo; reflexivity
    | |- Sim _ (sinkpad_push_event _ _) (sinkpad_push_event _ _) =>
        apply sim_sinkpad; reflexivity
    | |- Sim _ (warn_on_err _ _) (warn_on_err _ _) => unfold warn_on_err
    | |- Sim _ (if ?b then _ else _) (if ?b then _ else _) => destruct b
    | |- Sim _ (if ?a then _ else _) (if ?b then _ else _) => destruct a, b
    | |- Sim _ (match ?x with _ => _ end) (match ?x with _ => _ end) => destruct x
    | |- Sim _ (ret tt) (ret tt) => apply sim_unit_ret_ret
    | |- Sim _ (ret tt) (log _ _) => apply sim_unit_ret_log
    | |- Sim _ (log _ _) (ret tt) => apply sim_unit_log_ret
    | |- Sim _ (log _ _) (log _ _) => apply sim_unit_log_log
    | |- Sim _ ?m ?m => apply sim_refl
    end).

(** *** The filter and the standalone handler side by side *)

Section SimWLemmas.
Variable Rw : World -> World -> Prop.

Lemma simw_bind : forall A B C D (R : A -> B -> Prop) (S : C -> D -> Prop)
  (m1 : M A) (m2 : M B) k1 k2,
  SimW Rw R m1 m2 -> (forall a b, R a b -> SimW Rw S (k1 a) (k2 b)) ->
  SimW Rw S (bind m1 k1) (bind m2 k2).
Proof.
  intros A B C D R S m1 m2 k1 k2 Hm Hk w1 w2 Hw. unfold bind.
  specialize (Hm w1 w2 Hw).
  destruct (m1 w1) as [a v1 l1|s1 v1 l1], (m2 w2) as [b v2 l2|s2 v2 l2];
    cbn in Hm; try contradiction; [|exact Hm].
  destruct Hm as [Hab Hv]. specialize (Hk a b Hab v1 v2 Hv).
  destruct (k1 a v1), (k2 b v2); cbn in *; tauto.
Qed.

Lemma simw_bind_l : forall A B C (R : A -> B -> Prop) (S : C -> B -> Prop)
  (m1 : M A) (m2 : M B) k1,
  SimW Rw R m1 m2 -> (forall a b, R a b -> SimW Rw S (k1 a) (ret b)) ->
  SimW Rw S (bind m1 k1) m2.
Proof.
  intros A B C R S m1 m2 k1 Hm Hk w1 w2 Hw. unfold bind.
  specialize (Hm w1 w2 Hw).
  destruct (m1 w1) as [a v1 l1|s1 v1 l1], (m2 w2) as [b v2 l2|s2 v2 l2];
    cbn in Hm; try contradiction; [|exact Hm].
  destruct Hm as [Hab Hv]. specialize (Hk a b Hab v1 v2 Hv).
  destruct (k1 a v1); cbn in *; tauto.
Qed.

Lemma simw_log_l : forall B C (S : C -> B -> Prop) l s k (m2 : M B),
  (forall u, SimW Rw S (k u) m2) -> SimW Rw S (bind (log l s) k) m2.
Proof.
  intros B C S l s k m2 Hk w1 w2 Hw. unfold bind, log.
  specialize (Hk tt w1 w2 Hw). destruct (k tt w1); exact Hk.
Qed.

Lemma simw_expect : forall A (o : option A) s s', SimW Rw eq (expect o s) (expect o s').
Proof. intros A [a|] s s' w1 w2 Hw; cbn; auto. Qed.

Lemma simw_pure : forall A B (R : A -> B -> Prop) (m1 : M A) (m2 : M B) a b,
  (forall w, exists l, m1 w = Done a w l) -> (forall w, exists l, m2 w = Done b w l) ->
  R a b -> SimW Rw R m1 m2.
Proof.
  intros A B R m1 m2 a b H1 H2 Hab w1 w2 Hw.
  destruct (H1 w1) as [l1 ->], (H2 w2) as [l2 ->]. cbn. auto.
Qed.

End SimWLemmas.

Lemma simw_os : forall env c, SimW shapes_rel eq (os env c) (os env c).
Proof.
  intros env c w1 w2 [Hc Hs]. cbn. rewrite Hc.
  split; [reflexivity|split; [cbn; rewrite Hc; reflexivity|exact Hs]].
Qed.

Lemma simw_enigo : forall env,
  SimW shapes_rel (fun _ _ => True) (enigo env RemoteControlCrate) (enigo env WebrtcCrate).
Proof.
  intros env w1 w2 [Hc Hs].
  destruct w1 as [rc1 ri1 ws1 wi1 cs1 u1 d1 p1], w2 as [rc2 ri2 ws2 wi2 cs2 u2 d2 p2];
    cbn in Hc, Hs; subst cs2.
  destruct rc1, ws2; try contradiction; unfold enigo; cbn [once_of w_rc_enigo w_ws_enigo].
  - destruct (os_new env) eqn:Hn.
    + unfold bind; rewrite !release_all_calls. cbn. unfold shapes_rel; cbn. auto.
    + cbn. unfold shapes_rel; cbn. auto.
  - cbn. unfold shapes_rel; cbn. auto.
  - cbn. unfold shapes_rel; cbn. auto.
Qed.

Lemma simw_sinkpad_l : forall env e B (R : bool -> B -> Prop) (m2 : M B) b,
  (forall w, exists l, m2 w = Done b w l) -> (forall a, R a b) ->
  SimW shapes_rel R (sinkpad_push_event env e) m2.
Proof.
  intros env e B R m2 b H2 HR w1 w2 Hw.
  destruct (H2 w2) as [l ->]. cbn. split; [apply HR|exact Hw].
Qed.

Lemma rel_resW_shapes : forall A B (R : A -> B -> Prop) r1 r2,
  rel_resW shapes_rel R r1 r2 ->
  w_calls (res_world r1) = w_calls (res_world r2) /\ is_panic r1 = is_panic r2.
Proof.
  intros A B R [a1 w1 l1|s1 w1 l1] [a2 w2 l2|s2 w2 l2]; cbn; try tauto;
    unfold shapes_rel; tauto.
Qed.

Ltac pure_side := intro; eexists; reflexivity.

(** Walk the filter's [src_event] and the standalone handler side by side. *)
Ltac simw_tac :=
  repeat (cbv beta zeta;
    match goal with
    | H : ?a = ?b |- _ => subst a
    | |- SimW _ _ (bind (log _ _) _) (bind (log _ _) _) =>
        eapply simw_bind; [|intros ?a ?b ?Hab]
    | |- SimW _ _ (bind (log _ _) _) _ => apply simw_log_l; intros ?u
    | |- SimW _ _ (bind _ _) (bind _ _) => eapply simw_bind; [|intros ?a ?b ?Hab]
    | |- SimW _ _ (bind _ _) _ => eapply simw_bind_l; [|intros ?a ?b ?Hab]
    | |- SimW _ _ (enigo _ _) (enigo _ _) => apply simw_enigo
    | |- SimW _ _ (os _ _) (os _ _) => apply simw_os
    | |- SimW _ _ (expect _ _) (expect _ _) => apply simw_expect
    | |- SimW _ _ (sinkpad_push_event _ _) _ =>
        eapply simw_sinkpad_l; [pure_side|intros; exact I]
    | |- SimW _ _ _ (warn_on_err _ _) => unfold warn_on_err
    | |- SimW _ _ (if ?b then _ else _) (if ?b then _ else _) => destruct b
    | |- SimW _ _ (match ?x with _ => _ end) (match ?x with _ => _ end) => destruct x
    | |- SimW _ _ (match ?x with _ => _ end) _ => destruct x
    | |- SimW _ _ (if ?b then _ else _) _ => destruct b
    | |- SimW _ _ _ (if ?b then _ else _) => destruct b
    | |- SimW _ _ _ _ =>
        first
          [ eapply simw_pure; [pure_side|pure_side|first [exact I|reflexivity]]
          | eapply (simw_pure _ _ _ (fun _ _ => True)); [pure_side|pure_side|exact I] ]
    end).

(** *** Backend errors in the standalone handler *)

Lemma skipn_len_app : forall (cs L0 L : list Call),
  skipn (List.length (cs ++ L0)) (cs ++ L) = skipn (List.length L0) L.
Proof.
  induction cs as [|x cs IH]; intros L0 L; [reflexivity|].
  cbn [app List.length skipn]. apply IH.
Qed.

Lemma skipn_len_app_nil : forall (cs L0 : list Call),
  skipn (List.length (cs ++ L0)) cs = [].
Proof. intros cs L0. apply skipn_all2. rewrite length_app. lia. Qed.

Ltac cbv_handler_calls :=
  cbv - [os_call app f64_as_i32 f64_trunc_as_i32 is_lit get_f64 get_i32 get_str
         resolve_key Z.leb Z.eqb List.length skipn nth_error Nat.add In].

(** As [split_matches], remembering each backend answer. *)
Ltac split_matches_calls :=
  repeat (cbv_handler_calls;
    match goal with
    | |- context [match is_lit ?a ?b with _ => _ end] => destruct (is_lit a b)
    | |- context [match get_f64 ?a ?b with _ => _ end] => destruct (get_f64 a b)
    | |- context [match get_i32 ?a ?b with _ => _ end] => destruct (get_i32 a b)
    | |- context [match get_str ?a ?b with _ => _ end] => destruct (get_str a b)
    | |- context [match resolve_key ?a with _ => _ end] => destruct (resolve_key a)
    | |- context [match os_call ?e ?n ?c with _ => _ end] =>
        let E := fresh "E" in destruct (os_call e n c) eqn:E
    | |- context [match Z.eqb ?a ?b with _ => _ end] => destruct (Z.eqb a b)
    | |- context [match Z.leb ?a ?b with _ => _ end] => destruct (Z.leb a b)
    end); cbv_handler_calls.

(** The new call at position [i] is the one the code asked about: its answer
    was [Ok] (contradiction) or the warning was logged. *)
Ltac finish_warned :=
  let i := fresh "i" in let c := fresh "c" in
  let Hi := fresh "Hi" in let Hf := fresh "Hf" in
  intros i c Hi Hf;
  rewrite <- ?app_assoc in Hi; cbn [app] in Hi;
  first [rewrite skipn_len_app in Hi | rewrite skipn_len_app_nil in Hi];
  cbn [List.length skipn] in Hi;
  destruct i as [|[|i]]; cbn [nth_error] in Hi;
  try (destruct i; discriminate Hi); try discriminate Hi;
  injection Hi as <-;
  rewrite ?length_app in *; cbn [List.length] in *;
  first
    [ match goal with
      | E : os_call ?e ?n1 ?c = true, Hf : os_call ?e ?n2 ?c = false |- _ =>
          replace n2 with n1 in Hf by lia; congruence
      end
    | cbn [In app failure_msg]; intuition reflexivity ].

(** Every call the handler itself adds to the trace (after the accessor's
    [Release] calls) that the backend answers with [Err] has its warning in
    the log. *)
Lemma handler_errors_warned : forall env ev w,
  backend_usable env WebrtcCrate w ->
  match handle_remotecontrol_event env ev w with
  | Done _ w' l =>
      forall i c, nth_error (skipn (handler_base w) (w_calls w')) i = Some c ->
        os_call env (handler_base w + i) c = false ->
        In (mkLog LWarning (failure_msg c)) l
  | Panic _ _ _ => True
  end.
Proof.
  intros env [st|id] w Hu.
  - unfold handler_base. usable_cases w WebrtcCrate;
    unfold handle_remotecontrol_event, enigo; cbn [once_of w_ws_enigo];
    [rewrite Hu|]; split_matches_calls; try exact I; finish_warned.
  - unfold handler_base. usable_cases w WebrtcCrate; cbn;
    intros i c Hi; rewrite skipn_len_app_nil in Hi; destruct i; discriminate Hi.
Qed.

Lemma handle_unrecognized_logs : forall env st name w,
  get_str st "event" = Some name -> recognized name = false ->
  handle_remotecontrol_event env (Navigation st) w =
    Done tt w [mkLog LError "Unhandled navigation event"].
Proof.
  intros env st name w Hev Hr.
  unfold recognized in Hr. repeat rewrite orb_false_iff in Hr.
  destruct Hr as [[[[[H1 H2] H3] H4] H5] H6].
  unfold handle_remotecontrol_event. rewrite Hev. cbn - [is_lit].
  rewrite H1, H2, H3, H4, H5, H6. reflexivity.
Qed.

(** ** Claims *)

(** C1: key events.  For a [key-press]/[key-release] navigation event whose
    [key] field is a string, in both shapes: a name of the named-key table
    (exact, case-sensitive comparison, tried first) gives that key; failing
    that, the empty string is logged as [Empty `key`] and nothing is
    executed, a string of two or more scalars is logged as
    [Multi-character `key`] and nothing is executed, and a single scalar [c]
    gives [Key::Unicode(c)].  The direction is [Press] for [key-press] and
    [Release] for [key-release].  Decode errors leave the world unchanged
    and the filter reports the event as handled. *)
Theorem key_event_resolution :
  forall env st name dir key_str w,
    get_str st "event" = Some name ->
    (name = lit "key-press" /\ dir = Press) \/
    (name = lit "key-release" /\ dir = Release) ->
    get_str st "key" = Some key_str ->
    (forall k, lookup_named named_keys key_str = Some k ->
       (backend_usable env RemoteControlCrate w ->
        outcome (src_event env (Navigation st) w) w true
          (init_calls RemoteControlCrate w ++ [CKey k dir]) []) /\
       (backend_usable env WebrtcCrate w ->
        outcome (handle_remotecontrol_event env (Navigation st) w) w tt
          (init_calls WebrtcCrate w ++ [CKey k dir]) [])) /\
    (key_str = [] ->
       src_event env (Navigation st) w =
         Done true w [mkLog LError "Key something"; mkLog LError "Empty `key`"] /\
       handle_remotecontrol_event env (Navigation st) w =
         Done tt w [mkLog LDebug "Key press or release"; mkLog LError "Empty `key`"]) /\
    (lookup_named named_keys key_str = None -> (2 <= List.length key_str)%nat ->
       src_event env (Navigation st) w =
         Done true w [mkLog LError "Key something"; mkLog LError "Multi-character `key`"] /\
       handle_remotecontrol_event env (Navigation st) w =
         Done tt w [mkLog LDebug "Key press or release"; mkLog LError "Multi-character `key`"]) /\
    (forall c, lookup_named named_keys key_str = None -> key_str = [c] ->
       (backend_usable env RemoteControlCrate w ->
        outcome (src_event env (Navigation st) w) w true
          (init_calls RemoteControlCrate w ++ [CKey (Unicode c) dir]) []) /\
       (backend_usable env WebrtcCrate w ->
        outcome (handle_remotecontrol_event env (Navigation st) w) w tt
          (init_calls WebrtcCrate w ++ [CKey (Unicode c) dir]) [])).
Proof.
  intros env st name dir key_str w Hev Hname Hkey.
  split; [|split; [|split]].
  - intros k Hk. split; intros Hu.
    + eapply src_key_found; eauto using resolve_named.
    + eapply handle_key_found; eauto using resolve_named.
  - intros ->. split.
    + eapply src_key_error; eauto.
    + eapply handle_key_error; eauto.
  - intros Hn Hl. split.
    + eapply src_key_error; eauto using resolve_multi.
    + eapply handle_key_error; eauto using resolve_multi.
  - intros c Hn ->. split; intros Hu.
    + eapply src_key_found; eauto using resolve_single.
    + eapply handle_key_found; eauto using resolve_single.
Qed.

(** C5 (as amended): a [mouse-move] event whose [pointer_x]/[pointer_y]
    fields are f64 values [x], [y] is executed, in both shapes, as one
    absolute [MouseMove] whose coordinates are [x] and [y] truncated toward
    zero and then saturated to the [i32] range (NaN gives 0); e.g.
    (3.9, -3.9) gives (3, -3). *)
Theorem mouse_move_truncates_saturating :
  forall env st x y w,
    get_str st "event" = Some (lit "mouse-move") ->
    get_f64 st "pointer_x" = Some x ->
    get_f64 st "pointer_y" = Some y ->
    (backend_usable env RemoteControlCrate w ->
     outcome (src_event env (Navigation st) w) w true
       (init_calls RemoteControlCrate w ++
        [CMove (f64_to_i32_spec x) (f64_to_i32_spec y) Abs]) []) /\
    (backend_usable env WebrtcCrate w ->
     outcome (handle_remotecontrol_event env (Navigation st) w) w tt
       (init_calls WebrtcCrate w ++
        [CMove (f64_to_i32_spec x) (f64_to_i32_spec y) Abs]) []) /\
    f64_to_i32_spec 3.9%float = 3 /\ f64_to_i32_spec (-3.9)%float = -3.
Proof.
  intros env st x y w Hev Hx Hy. rewrite <- !f64_trunc_as_i32_spec.
  split; [|split; [|split; reflexivity]]; intros Hu.
  - unfold src_event; rewrite Hev; step_code; rewrite Hx, Hy; step_code.
    usable_cases w RemoteControlCrate; solve_outcome.
  - unfold handle_remotecontrol_event; rewrite Hev; step_code; rewrite Hx, Hy; step_code.
    usable_cases w WebrtcCrate; solve_outcome.
Qed.

(** C6 (as amended): a [mouse-scroll] event with f64 fields
    [delta_pointer_x], [delta_pointer_y] is executed, in both shapes, as one
    [Scroll] per axis whose converted delta (truncated toward zero and
    saturated to [i32], NaN giving 0) is non-zero: horizontal first, then
    vertical; an axis whose converted delta is 0 gives no action.  E.g.
    deltas (0, -5.2) give exactly [Scroll(-5, Vertical)]. *)
Theorem mouse_scroll_per_axis :
  forall env st dx dy w,
    get_str st "event" = Some (lit "mouse-scroll") ->
    get_f64 st "delta_pointer_x" = Some dx ->
    get_f64 st "delta_pointer_y" = Some dy ->
    let a := f64_to_i32_spec dx in
    let b := f64_to_i32_spec dy in
    let cs := (if a =? 0 then [] else [CScroll a Horizontal]) ++
              (if b =? 0 then [] else [CScroll b Vertical]) in
    (backend_usable env RemoteControlCrate w ->
     outcome (src_event env (Navigation st) w) w (peer_upstream env (Navigation st))
       ((if (a =? 0) && (b =? 0) then [] else init_calls RemoteControlCrate w) ++ cs)
       [Navigation st]) /\
    (backend_usable env WebrtcCrate w ->
     outcome (handle_remotecontrol_event env (Navigation st) w) w tt
       ((if (a =? 0) && (b =? 0) then [] else init_calls WebrtcCrate w) ++ cs) []) /\
    (f64_to_i32_spec 0%float = 0 /\ f64_to_i32_spec (-5.2)%float = -5).
Proof.
  intros env st dx dy w Hev Hx Hy a b cs; subst a b cs.
  rewrite <- !f64_as_i32_spec.
  split; [|split; [|split; reflexivity]]; intros Hu.
  - unfold src_event; rewrite Hev; step_code; rewrite Hx, Hy; step_code.
    usable_cases w RemoteControlCrate; run_cbv;
      destruct (f64_as_i32 dx), (f64_as_i32 dy); finish_outcome.
  - unfold handle_remotecontrol_event; rewrite Hev; step_code; rewrite Hx, Hy; step_code.
    usable_cases w WebrtcCrate; run_cbv;
      destruct (f64_as_i32 dx), (f64_as_i32 dy); finish_outcome.
Qed.

(** C7: a [mouse-button-press]/[mouse-button-release] event with an i32
    [button] field: buttons 1, 2, 3 give exactly [Left], [Middle], [Right]
    with [Press] for the press discriminator and [Release] for the release
    one, in both shapes; any other value gives no backend call and no error
    report: the filter passes the event on upstream, the standalone handler
    just returns. *)
Theorem mouse_button_mapping :
  forall env st name dir b w,
    get_str st "event" = Some name ->
    (name = lit "mouse-button-press" /\ dir = Press) \/
    (name = lit "mouse-button-release" /\ dir = Release) ->
    get_i32 st "button" = Some b ->
    (forall btn,
       (b = 1 /\ btn = Left) \/ (b = 2 /\ btn = Middle) \/ (b = 3 /\ btn = Right) ->
       (backend_usable env RemoteControlCrate w ->
        outcome (src_event env (Navigation st) w) w true
          (init_calls RemoteControlCrate w ++ [CButton btn dir]) []) /\
       (backend_usable env WebrtcCrate w ->
        outcome (handle_remotecontrol_event env (Navigation st) w) w tt
          (init_calls WebrtcCrate w ++ [CButton btn dir]) [])) /\
    (b < 1 \/ 3 < b ->
       src_event env (Navigation st) w =
         Done (peer_upstream env (Navigation st)) (add_upstream (Navigation st) w)
              [mkLog LError "Mouse button"] /\
       handle_remotecontrol_event env (Navigation st) w =
         Done tt w [mkLog LDebug "Mouse button"]).
Proof.
  intros env st name dir b w Hev Hname Hb. split.
  - intros btn Hbtn. split; intros Hu.
    + destruct Hname as [[-> ->]|[-> ->]];
        destruct Hbtn as [[-> ->]|[[-> ->]|[-> ->]]];
        unfold src_event; rewrite Hev; step_code; rewrite Hb; step_code;
        usable_cases w RemoteControlCrate; solve_outcome.
    + destruct Hname as [[-> ->]|[-> ->]];
        destruct Hbtn as [[-> ->]|[[-> ->]|[-> ->]]];
        unfold handle_remotecontrol_event; rewrite Hev; step_code; rewrite Hb; step_code;
        usable_cases w WebrtcCrate; solve_outcome.
  - intros Hout.
    assert (Hr : (1 <=? b) && (b <=? 3) = false).
    { apply andb_false_iff.
      destruct Hout; [left | right]; apply Z.leb_gt; lia. }
    split.
    + destruct Hname as [[-> ->]|[-> ->]];
        unfold src_event; rewrite Hev; step_code; rewrite Hb;
        cbv - [andb Z.leb peer_upstream add_upstream]; rewrite Hr; reflexivity.
    + destruct Hname as [[-> ->]|[-> ->]];
        unfold handle_remotecontrol_event; rewrite Hev; step_code; rewrite Hb;
        cbv - [andb Z.leb]; rewrite Hr; reflexivity.
Qed.

(** C8: in the named-key table, [AltLeft], [AltRight] and [Alt] all give the
    unqualified [Alt], and [MetaLeft], [MetaRight] and [Meta] all give the
    unqualified [Meta]; both shapes resolve keys through this table. *)
Theorem alt_meta_sides_collapse :
  resolve_key (lit "AltLeft") = KeyFound Alt /\
  resolve_key (lit "AltRight") = KeyFound Alt /\
  resolve_key (lit "Alt") = KeyFound Alt /\
  resolve_key (lit "MetaLeft") = KeyFound Meta /\
  resolve_key (lit "MetaRight") = KeyFound Meta /\
  resolve_key (lit "Meta") = KeyFound Meta.
Proof. repeat split; vm_compute; reflexivity. Qed.

(** C9: a [key-press] event without a [key] field issues no backend call
    and changes nothing: the filter logs [`key` not found] and answers
    [true] (the event is swallowed, not forwarded); the standalone handler
    logs a warning and returns.  In a running filter whose element has not
    panicked, the events after it are processed exactly as if it had not
    arrived, apart from the two log lines. *)
Theorem key_press_missing_key :
  forall env st w,
    get_str st "event" = Some (lit "key-press") ->
    get_str st "key" = None ->
    src_event env (Navigation st) w =
      Done true w [mkLog LError "Key something"; mkLog LError "`key` not found in"] /\
    handle_remotecontrol_event env (Navigation st) w =
      Done tt w [mkLog LDebug "Key press or release"; mkLog LWarning "`key` not found in"] /\
    (w_panicked w = false -> forall rest,
       run env (SrcEvent (Navigation st) :: rest) w =
       with_logs [mkLog LError "Key something"; mkLog LError "`key` not found in"]
         (run env rest w)).
Proof.
  intros env st w Hev Hkey.
  assert (Hsrc : src_event env (Navigation st) w =
      Done true w [mkLog LError "Key something"; mkLog LError "`key` not found in"]).
  { unfold src_event; rewrite Hev; step_code; rewrite Hkey; reflexivity. }
  split; [exact Hsrc|split].
  - unfold handle_remotecontrol_event; rewrite Hev; step_code; rewrite Hkey; reflexivity.
  - intros Hpan rest. cbn [run step]. unfold bind at 1.
    unfold bind at 1, src_pad_event, catch_panic_pad_function.
    rewrite Hpan, Hsrc. cbn.
    destruct (run env rest w); reflexivity.
Qed.

(** C10: the sink pad forwards every event (navigation events included)
    unchanged to the src pad and answers [true], and forwards every buffer
    unchanged; nothing is translated and no backend call is made. *)
Theorem sink_side_passthrough :
  forall env ev b w,
    (exists l, sink_event env ev w = Done true (add_downstream (IEvent ev) w) l) /\
    sink_chain env b w =
      Done (peer_buffer env b) (add_downstream (IBuffer b) w) [mkLog LDebug "sink_chain"].
Proof.
  intros env ev b w. split; [|reflexivity].
  destruct ev; eexists; reflexivity.
Qed.

(** C2 (defect): the [mouse-scroll] arm of the filter has no [return true],
    so a scroll event that was executed is also forwarded upstream. *)
Theorem src_scroll_executed_then_forwarded :
  src_event env_ok (Navigation (scroll_structure 0 (-5.2))) world_rc_ready =
    Done true
      (add_upstream (Navigation (scroll_structure 0 (-5.2)))
         (add_call (CScroll (-5) Vertical) world_rc_ready))
      [mkLog LError "Mouse scroll"].
Proof. vm_compute. reflexivity. Qed.

(** C3 (as amended): once the accessor can hand out an instance, the
    standalone handler panics exactly when the event is a navigation event
    whose [event] field, or a numeric field its discriminator requires
    ([pointer_x]/[pointer_y], [button], [delta_pointer_x]/[delta_pointer_y]),
    is absent or of another type.  It returns normally, changing nothing and
    logging a line, on a non-navigation event, an unrecognized
    discriminator, a missing, empty or multi-character [key] and an
    out-of-range button; and every [Err] the backend returns for a call the
    handler makes itself (move, button, scroll, key) is logged as a
    warning. *)
Theorem handle_panics_iff_malformed :
  forall env w,
    (backend_usable env WebrtcCrate w -> forall ev,
       is_panic (handle_remotecontrol_event env ev w) = malformed ev) /\
    (forall id, handle_remotecontrol_event env (OtherEvent id) w =
       Done tt w [mkLog LDebug "Not a navigation event"]) /\
    (forall st name, get_str st "event" = Some name -> recognized name = false ->
       handle_remotecontrol_event env (Navigation st) w =
         Done tt w [mkLog LError "Unhandled navigation event"]) /\
    (forall st name, get_str st "event" = Some name ->
       name = lit "key-press" \/ name = lit "key-release" ->
       (get_str st "key" = None ->
          handle_remotecontrol_event env (Navigation st) w =
            Done tt w [mkLog LDebug "Key press or release";
                       mkLog LWarning "`key` not found in"]) /\
       (get_str st "key" = Some [] ->
          handle_remotecontrol_event env (Navigation st) w =
            Done tt w [mkLog LDebug "Key press or release"; mkLog LError "Empty `key`"]) /\
       (forall key_str, get_str st "key" = Some key_str ->
          lookup_named named_keys key_str = None -> (2 <= List.length key_str)%nat ->
          handle_remotecontrol_event env (Navigation st) w =
            Done tt w [mkLog LDebug "Key press or release";
                       mkLog LError "Multi-character `key`"])) /\
    (forall st name b, get_str st "event" = Some name ->
       name = lit "mouse-button-press" \/ name = lit "mouse-button-release" ->
       get_i32 st "button" = Some b -> b < 1 \/ 3 < b ->
       handle_remotecontrol_event env (Navigation st) w =
         Done tt w [mkLog LDebug "Mouse button"]) /\
    (backend_usable env WebrtcCrate w -> forall ev,
       match handle_remotecontrol_event env ev w with
       | Done _ w' l =>
           forall i c, nth_error (skipn (handler_base w) (w_calls w')) i = Some c ->
             os_call env (handler_base w + i) c = false ->
             In (mkLog LWarning (failure_msg c)) l
       | Panic _ _ _ => True
       end).
Proof.
  intros env w.
  split; [|split; [|split; [|split; [|split]]]].
  - intros Hu [st|id]; [|reflexivity].
    usable_cases w WebrtcCrate;
    unfold handle_remotecontrol_event, malformed, enigo; cbn [once_of w_ws_enigo];
    [rewrite Hu|]; split_matches; reflexivity.
  - intros id. reflexivity.
  - intros st name. exact (handle_unrecognized_logs env st name w).
  - intros st name Hev Hname. split; [|split].
    + intros Hk. unfold handle_remotecontrol_event. rewrite Hev.
      destruct Hname as [->| ->]; step_code; rewrite Hk; reflexivity.
    + intros Hk. destruct Hname as [Hn|Hn].
      * apply (handle_key_error env st name Press [] w Hev (or_introl (conj Hn eq_refl)) Hk
                 KeyEmpty); [apply resolve_empty|right; split; reflexivity].
      * apply (handle_key_error env st name Release [] w Hev (or_intror (conj Hn eq_refl)) Hk
                 KeyEmpty); [apply resolve_empty|right; split; reflexivity].
    + intros key_str Hk Hn Hl. destruct Hname as [Hnm|Hnm].
      * apply (handle_key_error env st name Press key_str w Hev (or_introl (conj Hnm eq_refl)) Hk
                 KeyMulti); [apply resolve_multi; assumption|left; split; reflexivity].
      * apply (handle_key_error env st name Release key_str w Hev (or_intror (conj Hnm eq_refl)) Hk
                 KeyMulti); [apply resolve_multi; assumption|left; split; reflexivity].
  - intros st name b Hev Hname Hb Hr.
    assert (Hrange : (1 <=? b) && (b <=? 3) = false).
    { apply andb_false_iff. destruct Hr; [left|right]; apply Z.leb_gt; lia. }
    unfold handle_remotecontrol_event. rewrite Hev.
    destruct Hname as [->| ->]; cbn - [is_lit lit Z.leb]; eval_lits; cbn - [Z.leb];
      rewrite Hb; cbn - [Z.leb]; rewrite Hrange; reflexivity.
  - intros Hu ev. exact (handler_errors_warned env ev w Hu).
Qed.

(** C3, counterexample: a [mouse-move] event without [pointer_x] makes the
    standalone handler panic with [Missing `pointer_x`], on a backend that
    accepts everything. *)
Lemma handle_missing_pointer_x_panics :
  handle_remotecontrol_event env_ok
    (Navigation [("event", VString (lit "mouse-move")); ("pointer_y", VF64 1.0)]) world0 =
    Panic "Missing `pointer_x`" world0 [] /\
  is_panic (handle_remotecontrol_event env_ok
    (Navigation [("event", VString (lit "mouse-move")); ("pointer_y", VF64 1.0)]) world0) = true.
Proof. split; vm_compute; reflexivity. Qed.

(** C4: [enigo()] of each crate.  On its first call (its [Once] not run yet,
    [Enigo::new] succeeding) it builds instance number [inits_of cr w],
    issues [Release] for CapsLock, Shift, LShift, RShift, Control,
    LControl, RControl, Alt and Meta, in that order, and stores the instance,
    whatever the backend answers to each release ([os_call] is arbitrary);
    once it holds an instance, every call returns that instance and changes
    nothing.  Along any run of the process starting where each crate has
    built no instance (or exactly one, numbered 0, that it holds), each crate
    has built at most one instance, and whatever it holds is instance 0. *)
Theorem enigo_constructed_once :
  forall env cr w,
    (once_of cr w = Uninit -> os_new env = true ->
       enigo env cr w =
         Done (inits_of cr w)
           (set_once cr (Ready (inits_of cr w))
              (add_calls release_calls (bump_inits cr w))) []) /\
    release_calls =
      [CKey CapsLock Release; CKey Shift Release; CKey LShift Release;
       CKey RShift Release; CKey Control Release; CKey LControl Release;
       CKey RControl Release; CKey Alt Release; CKey Meta Release] /\
    (forall id, once_of cr w = Ready id -> enigo env cr w = Done id w []) /\
    (inv2 w -> forall inputs, inv2 (res_world (run env inputs w))).
Proof.
  intros env cr w. split; [|split; [reflexivity|split]].
  - apply enigo_uninit.
  - intros id H. unfold enigo. rewrite H. reflexivity.
  - intros H inputs. apply pres_run, H.
Qed.

(** C5, counterexample: [x = 3e9] truncates toward zero to 3000000000, but
    the standalone handler moves the pointer to x = 2147483647: the cast
    saturates to the [i32] range. *)
Lemma mouse_move_saturates :
  sf_trunc_exact (Prim2SF 3e9%float) = Some 3000000000 /\
  w_calls (res_world (handle_remotecontrol_event env_ok
             (Navigation (move_structure 3e9 0)) world0)) =
    release_calls ++ [CMove 2147483647 0 Abs].
Proof. split; vm_compute; reflexivity. Qed.

(** C6, counterexample: a horizontal delta of [1e10] truncates toward zero
    to 10000000000, but the standalone handler scrolls by 2147483647: the
    cast saturates to the [i32] range. *)
Lemma mouse_scroll_saturates :
  sf_trunc_exact (Prim2SF 1e10%float) = Some 10000000000 /\
  w_calls (res_world (handle_remotecontrol_event env_ok
             (Navigation (scroll_structure 1e10 0)) world0)) =
    release_calls ++ [CScroll 2147483647 Horizontal].
Proof. split; vm_compute; reflexivity. Qed.

(** ** Witnesses *)

Lemma key_event_resolution_witness :
  get_str (key_structure "key-press" "a") "event" = Some (lit "key-press") /\
  get_str (key_structure "key-press" "a") "key" = Some (lit "a") /\
  outcome (handle_remotecontrol_event env_ok
             (Navigation (key_structure "key-press" "a")) world0) world0 tt
    (init_calls WebrtcCrate world0 ++ [CKey (Unicode 97) Press]) [].
Proof.
  split; [reflexivity|split; [reflexivity|]].
  destruct (key_event_resolution env_ok (key_structure "key-press" "a")
              (lit "key-press") Press (lit "a") world0)
    as (_ & _ & _ & H);
    [reflexivity|left; split; reflexivity|reflexivity|].
  apply (proj2 (H 97 ltac:(vm_compute; reflexivity) ltac:(reflexivity))).
  reflexivity.
Defined.

Lemma handle_panics_iff_malformed_witness :
  backend_usable env_ok WebrtcCrate world0 /\
  is_panic (handle_remotecontrol_event env_ok
    (Navigation [("event", VString (lit "mouse-move")); ("pointer_y", VF64 1.0)]) world0) =
  malformed (Navigation [("event", VString (lit "mouse-move")); ("pointer_y", VF64 1.0)]).
Proof.
  split; [reflexivity|].
  apply (proj1 (handle_panics_iff_malformed env_ok world0)). reflexivity.
Defined.

Lemma enigo_constructed_once_witness :
  once_of RemoteControlCrate world0 = Uninit /\ os_new env_ok = true /\
  enigo env_ok RemoteControlCrate world0 =
    Done 0%nat (set_once RemoteControlCrate (Ready 0)
                  (add_calls release_calls (bump_inits RemoteControlCrate world0))) [] /\
  inv2 (res_world (run env_ok
    [SrcEvent (Navigation (key_structure "key-press" "a"));
     Handle (Navigation (key_structure "key-press" "b"));
     SrcEvent (Navigation (key_structure "key-press" "c"))] world0)).
Proof.
  split; [reflexivity|split; [reflexivity|split]].
  - apply (proj1 (enigo_constructed_once env_ok RemoteControlCrate world0));
      reflexivity.
  - apply (proj2 (proj2 (proj2 (enigo_constructed_once env_ok RemoteControlCrate world0)))).
    split; split; reflexivity || exact I.
Defined.

Lemma mouse_move_truncates_saturating_witness :
  get_str (move_structure 3.9 (-3.9)) "event" = Some (lit "mouse-move") /\
  backend_usable env_ok WebrtcCrate world0 /\
  outcome (handle_remotecontrol_event env_ok (Navigation (move_structure 3.9 (-3.9))) world0)
    world0 tt (init_calls WebrtcCrate world0 ++
               [CMove (f64_to_i32_spec 3.9) (f64_to_i32_spec (-3.9)) Abs]) [].
Proof.
  split; [reflexivity|split; [reflexivity|]].
  apply (mouse_move_truncates_saturating env_ok (move_structure 3.9 (-3.9)) 3.9 (-3.9) world0);
    reflexivity.
Defined.

Lemma mouse_scroll_per_axis_witness :
  get_str (scroll_structure 0 (-5.2)) "event" = Some (lit "mouse-scroll") /\
  backend_usable env_ok WebrtcCrate world0 /\
  outcome (handle_remotecontrol_event env_ok (Navigation (scroll_structure 0 (-5.2))) world0)
    world0 tt
    ((if (f64_to_i32_spec 0 =? 0) && (f64_to_i32_spec (-5.2) =? 0) then []
      else init_calls WebrtcCrate world0) ++
     ((if f64_to_i32_spec 0 =? 0 then [] else [CScroll (f64_to_i32_spec 0) Horizontal]) ++
      (if f64_to_i32_spec (-5.2) =? 0 then []
       else [CScroll (f64_to_i32_spec (-5.2)) Vertical]))) [].
Proof.
  split; [reflexivity|split; [reflexivity|]].
  apply (mouse_scroll_per_axis env_ok (scroll_structure 0 (-5.2)) 0 (-5.2) world0);
    reflexivity.
Defined.

Lemma mouse_button_mapping_witness :
  get_i32 (button_structure "mouse-button-release" 2) "button" = Some 2 /\
  outcome (src_event env_ok (Navigation (button_structure "mouse-button-release" 2))
             world_rc_ready)
    world_rc_ready true (init_calls RemoteControlCrate world_rc_ready ++ [CButton Middle Release]) [].
Proof.
  split; [reflexivity|].
  destruct (mouse_button_mapping env_ok (button_structure "mouse-button-release" 2)
              (lit "mouse-button-release") Release 2 world_rc_ready)
    as [H _];
    [reflexivity|right; split; reflexivity|reflexivity|].
  apply (proj1 (H Middle ltac:(right; left; split; reflexivity))).
  exact I.
Defined.

Lemma key_press_missing_key_witness :
  get_str [("event", VString (lit "key-press"))] "key" = None /\
  src_event env_ok (Navigation [("event", VString (lit "key-press"))]) world0 =
    Done true world0 [mkLog LError "Key something"; mkLog LError "`key` not found in"].
Proof.
  split; [reflexivity|].
  apply (key_press_missing_key env_ok [("event", VString (lit "key-press"))] world0);
    reflexivity.
Defined.


(** ** Further properties of the code *)

(** X1: a run of inputs that all reach the filter's pads (src events, sink
    events, buffers) never ends in a panic: every pad function goes through
    [catch_panic_pad_function], which turns a panic into the fallback answer. *)
Theorem filter_run_never_panics : forall env inputs w,
  forallb filter_input inputs = true -> is_panic (run env inputs w) = false.
Proof.
  intros env inputs. induction inputs as [|i rest IH]; intros w Hall; [reflexivity|].
  cbn [forallb] in Hall. apply andb_true_iff in Hall as [Hi Hrest].
  destruct (step_filter_done env i w Hi) as (w' & l & E).
  cbn [run]. unfold bind at 1. rewrite E.
  specialize (IH w' Hrest). destruct (run env rest w'); [reflexivity|discriminate].
Qed.

(** X2: once the element has panicked, every pad function answers its
    fallback ([false] for the event pads, [FlowError] for the chain
    function) and posts an error without running the wrapped function; a
    whole run of pad inputs then leaves the world (backend calls, pushed
    events and buffers, accessor states) as it is. *)
Theorem panicked_filter_inert : forall env w,
  w_panicked w = true ->
  (forall e, src_pad_event env e w = Done false w [mkLog LError "Panicked"] /\
             sink_pad_event env e w = Done false w [mkLog LError "Panicked"]) /\
  (forall b, sink_pad_chain env b w = Done FlowError w [mkLog LError "Panicked"]) /\
  (forall inputs, forallb filter_input inputs = true ->
     exists l, run env inputs w = Done tt w l).
Proof.
  intros env w Hp. split; [|split].
  - intros e. unfold src_pad_event, sink_pad_event, catch_panic_pad_function.
    rewrite Hp. split; reflexivity.
  - intros b. unfold sink_pad_chain, catch_panic_pad_function. rewrite Hp. reflexivity.
  - intros inputs Hall. exact (run_panicked_inert env inputs w Hp Hall).
Qed.

(** X3: a navigation event on the src pad whose [event] field, or a numeric
    field its discriminator needs, is missing makes [src_event] panic before
    any backend call or push; the element is marked panicked and everything
    after it on its pads is inert: the world ends as it was, plus the
    panicked flag. *)
Theorem malformed_event_disables_filter : forall env ev rest w,
  w_panicked w = false -> malformed ev = true -> forallb filter_input rest = true ->
  exists l, run env (SrcEvent ev :: rest) w = Done tt (set_panicked w) l.
Proof.
  intros env ev rest w Hp Hm Hall.
  destruct (src_event_malformed env ev w Hm) as (msg & l & E).
  destruct (run_panicked_inert env rest (set_panicked w) eq_refl Hall) as [l2 E2].
  eexists. cbn [run step]. unfold bind, src_pad_event, catch_panic_pad_function.
  rewrite Hp, E. cbn [ret]. rewrite E2. reflexivity.
Qed.

(** X4: once its accessor can hand out an instance, the filter's [src_event]
    panics exactly when the event is malformed in the sense of [malformed]
    (the same condition as the standalone handler). *)
Theorem src_panics_iff_malformed : forall env ev w,
  backend_usable env RemoteControlCrate w ->
  is_panic (src_event env ev w) = malformed ev.
Proof.
  intros env [st|id] w Hu; [|reflexivity].
  usable_cases w RemoteControlCrate;
  unfold src_event, malformed, enigo; cbn [once_of w_rc_enigo];
  [rewrite Hu|]; split_matches; reflexivity.
Qed.

(** X5: a navigation event with an [event] discriminator that neither
    translator knows is forwarded upstream unchanged by the filter, which
    answers with the peer's result; the standalone handler only logs. A
    non-navigation event is forwarded the same way by the filter and only
    logged by the standalone handler. Neither makes a backend call. *)
Theorem unrecognized_passthrough : forall env st name id w,
  get_str st "event" = Some name -> recognized name = false ->
  (src_event env (Navigation st) w =
     Done (peer_upstream env (Navigation st)) (add_upstream (Navigation st) w)
          [mkLog LError "Unhandled navigation event"] /\
   handle_remotecontrol_event env (Navigation st) w =
     Done tt w [mkLog LError "Unhandled navigation event"]) /\
  (src_event env (OtherEvent id) w =
     Done (peer_upstream env (OtherEvent id)) (add_upstream (OtherEvent id) w)
          [mkLog LError "Not a navigation event"] /\
   handle_remotecontrol_event env (OtherEvent id) w =
     Done tt w [mkLog LDebug "Not a navigation event"]).
Proof.
  intros env st name id w Hev Hr.
  unfold recognized in Hr. repeat rewrite orb_false_iff in Hr.
  destruct Hr as [[[[[H1 H2] H3] H4] H5] H6].
  split; [split|split; reflexivity].
  - unfold src_event. rewrite Hev. cbn - [is_lit].
    rewrite H1, H2, H3, H4, H5, H6. reflexivity.
  - unfold handle_remotecontrol_event. rewrite Hev. cbn - [is_lit].
    rewrite H1, H2, H3, H4, H5, H6. reflexivity.
Qed.

(** X6: the standalone handler never pushes an event or a buffer anywhere,
    never touches the filter's accessor and never sets the element's
    panicked flag: it only issues backend calls and uses its own accessor. *)
Theorem handle_frame : forall env ev w,
  let w' := res_world (handle_remotecontrol_event env ev w) in
  w_rc_enigo w' = w_rc_enigo w /\ w_rc_inits w' = w_rc_inits w /\
  w_upstream w' = w_upstream w /\ w_downstream w' = w_downstream w /\
  w_panicked w' = w_panicked w.
Proof.
  intros env ev w.
  set (P := fun v => w_rc_enigo v = w_rc_enigo w /\ w_rc_inits v = w_rc_inits w /\
     w_upstream v = w_upstream w /\ w_downstream v = w_downstream w /\
     w_panicked v = w_panicked w).
  assert (K : Keeps P (handle_remotecontrol_event env ev)).
  { unfold handle_remotecontrol_event. keeps_tac ltac:(subst P; world_solve). }
  apply (K w). subst P. cbv beta. tauto.
Qed.

(** X7: runs of the filter's pads never construct or touch the standalone
    handler's [Enigo] instance: the two files keep separate [INIT] and
    [GLOBAL_ENIGO] statics. *)
Theorem filter_keeps_standalone_accessor : forall env inputs w,
  forallb filter_input inputs = true ->
  w_ws_enigo (res_world (run env inputs w)) = w_ws_enigo w /\
  w_ws_inits (res_world (run env inputs w)) = w_ws_inits w.
Proof.
  intros env inputs w Hall.
  set (P := fun v => w_ws_enigo v = w_ws_enigo w /\ w_ws_inits v = w_ws_inits w).
  assert (K : Keeps P (run env inputs)).
  { revert Hall. induction inputs as [|i rest IH]; intros Hall; cbn [run];
      [apply keeps_ret|].
    cbn [forallb] in Hall. apply andb_true_iff in Hall as [Hi Hrest].
    apply keeps_bind; [|intros; exact (IH Hrest)].
    destruct i; try discriminate; cbn [step];
      (apply keeps_bind; [apply keeps_catch; [subst P; world_solve|]|intros; apply keeps_ret]);
      [unfold src_event|unfold sink_event|unfold sink_chain];
      keeps_tac ltac:(subst P; world_solve). }
  apply (K w). subst P. cbv beta. tauto.
Qed.

(** X8: when [Enigo::new] fails on the first call of an accessor, the call
    panics and poisons the [Once]; a poisoned accessor stays poisoned, with
    no instance built, for the rest of the process, whatever runs. *)
Theorem poisoned_stays_poisoned : forall env cr w,
  (once_of cr w = Uninit -> os_new env = false ->
     enigo env cr w = Panic "Failed to create enigo" (set_once cr Poisoned w) []) /\
  (once_of cr w = Poisoned -> forall inputs,
     once_of cr (res_world (run env inputs w)) = Poisoned /\
     inits_of cr (res_world (run env inputs w)) = inits_of cr w).
Proof.
  intros env cr w. split.
  - intros Hu Hn. unfold enigo. rewrite Hu, Hn. reflexivity.
  - intros Hp inputs.
    set (P := fun v => once_of cr v = Poisoned /\ inits_of cr v = inits_of cr w).
    assert (K : Keeps P (run env inputs)).
    { apply keeps_run. intros i. apply keeps_step; subst P;
        intros; destruct cr; try destruct cr0; world_solve. }
    apply (K w). subst P. cbv beta. tauto.
Qed.

(** X9: the backend's [Ok]/[Err] answers only change the log lines: the
    filter's answer, the backend calls it issues, the events it forwards and
    any panic are the same whatever the backend answers, and likewise for
    the standalone handler. *)
Theorem backend_answers_only_change_logs : forall env f ev w,
  strip_logs (src_event env ev w) = strip_logs (src_event (with_os_call env f) ev w) /\
  strip_logs (handle_remotecontrol_event env ev w) =
    strip_logs (handle_remotecontrol_event (with_os_call env f) ev w).
Proof.
  intros env f ev w. split; apply rel_res_strip; revert w.
  - change (Sim eq (src_event env ev) (src_event (with_os_call env f) ev)).
    unfold src_event. sim_tac.
  - change (Sim eq (handle_remotecontrol_event env ev)
                   (handle_remotecontrol_event (with_os_call env f) ev)).
    unfold handle_remotecontrol_event. sim_tac.
Qed.

(** X10: the two shapes issue the same backend calls for every event: started
    with their accessors in the same phase, the filter's [src_event] and the
    standalone handler append the same calls to the backend trace, and one
    panics exactly when the other does. *)
Theorem shapes_same_backend_calls : forall env ev w,
  state_match (once_of RemoteControlCrate w) (once_of WebrtcCrate w) ->
  w_calls (res_world (src_event env ev w)) =
    w_calls (res_world (handle_remotecontrol_event env ev w)) /\
  is_panic (src_event env ev w) = is_panic (handle_remotecontrol_event env ev w).
Proof.
  intros env ev w H. apply rel_resW_shapes with (R := fun _ _ => True).
  assert (K : SimW shapes_rel (fun _ _ => True)
                (src_event env ev) (handle_remotecontrol_event env ev)).
  { unfold src_event, handle_remotecontrol_event. destruct ev; simw_tac. }
  apply K. split; [reflexivity|exact H].
Qed.

(** ** Witnesses of the further properties *)

Lemma filter_run_never_panics_witness :
  forallb filter_input filter_inputs_example = true /\
  is_panic (run env_ok filter_inputs_example world0) = false.
Proof.
  split; [reflexivity|]. apply filter_run_never_panics. reflexivity.
Defined.

Lemma panicked_filter_inert_witness :
  w_panicked (set_panicked world0) = true /\
  src_pad_event env_ok (Navigation (key_structure "key-press" "a")) (set_panicked world0) =
    Done false (set_panicked world0) [mkLog LError "Panicked"] /\
  exists l, run env_ok filter_inputs_example (set_panicked world0) =
            Done tt (set_panicked world0) l.
Proof.
  split; [reflexivity|split].
  - apply (proj1 (proj1 (panicked_filter_inert env_ok (set_panicked world0) eq_refl) _)).
  - apply (proj2 (proj2 (panicked_filter_inert env_ok (set_panicked world0) eq_refl))).
    reflexivity.
Defined.

Lemma malformed_event_disables_filter_witness :
  malformed missing_x_event = true /\
  exists l, run env_ok (SrcEvent missing_x_event :: filter_inputs_example) world0 =
            Done tt (set_panicked world0) l.
Proof.
  split; [reflexivity|]. apply malformed_event_disables_filter; reflexivity.
Defined.

Lemma unrecognized_passthrough_witness :
  recognized (lit "pinch-zoom") = false /\
  handle_remotecontrol_event env_ok (Navigation [("event", VString (lit "pinch-zoom"))]) world0 =
    Done tt world0 [mkLog LError "Unhandled navigation event"].
Proof.
  split; [vm_compute; reflexivity|].
  apply (unrecognized_passthrough env_ok [("event", VString (lit "pinch-zoom"))]
           (lit "pinch-zoom") 0 world0); [reflexivity|vm_compute; reflexivity].
Defined.

Lemma poisoned_stays_poisoned_witness :
  enigo env_no_backend WebrtcCrate world0 =
    Panic "Failed to create enigo" (set_once WebrtcCrate Poisoned world0) [] /\
  once_of WebrtcCrate (res_world (run env_ok filter_inputs_example
                                   (set_once WebrtcCrate Poisoned world0))) = Poisoned.
Proof.
  split.
  - apply (proj1 (poisoned_stays_poisoned env_no_backend WebrtcCrate world0)); reflexivity.
  - apply (proj2 (poisoned_stays_poisoned env_ok WebrtcCrate
                    (set_once WebrtcCrate Poisoned world0))); reflexivity.
Defined.

Lemma src_panics_iff_malformed_witness :
  backend_usable env_ok RemoteControlCrate world0 /\
  is_panic (src_event env_ok missing_x_event world0) = malformed missing_x_event.
Proof.
  split; [reflexivity|]. apply src_panics_iff_malformed. reflexivity.
Defined.

Lemma filter_keeps_standalone_accessor_witness :
  forallb filter_input filter_inputs_example = true /\
  w_ws_enigo (res_world (run env_ok filter_inputs_example world0)) = Uninit.
Proof.
  split; [reflexivity|].
  apply (proj1 (filter_keeps_standalone_accessor env_ok filter_inputs_example world0
                  ltac:(reflexivity))).
Defined.

Lemma shapes_same_backend_calls_witness :
  state_match (once_of RemoteControlCrate world0) (once_of WebrtcCrate world0) /\
  w_calls (res_world (src_event env_ok (Navigation (scroll_structure 0 (-5.2))) world0)) =
    w_calls (res_world (handle_remotecontrol_event env_ok
                          (Navigation (scroll_structure 0 (-5.2))) world0)).
Proof.
  split; [exact I|].
  apply (proj1 (shapes_same_backend_calls env_ok (Navigation (scroll_structure 0 (-5.2)))
                  world0 I)).
Defined.
